(** * Sortino ratio and portfolio beta: a shallow embedding of [sortino_ratio.py]

    The Python module defines one dataclass, [Portfolio], whose methods
    read and write attributes of [self].  Numbers are IEEE 754 binary64
    values (numpy [float64]); they are modelled by Rocq's primitive floats,
    which implement the same format with round-to-nearest-even.  A pandas
    [Series] of closing prices is modelled by the list of its values in
    index order, attribute access by explicit state passing over a record,
    and Python exceptions by a result type. *)

From Stdlib Require Import String ZArith List Bool Uint63 Floats Lia Permutation.
Import ListNotations.

#[local] Set Warnings "-inexact-float".

Local Open Scope string_scope.
Local Open Scope list_scope.

(** ** Python exceptions and results *)

Inductive exn : Type := Exn (cls : string).

(** Exceptions the interpreter raises on the paths of this module. *)
Definition IndexError : exn := Exn "IndexError".
Definition TypeError : exn := Exn "TypeError".
Definition AttributeError : exn := Exn "AttributeError".

(** Error classes of the specification's taxonomy.  No statement of the
    module raises them; they are declared so that the specification's
    sentences can be written down. *)
Definition UndefinedRatioError : exn := Exn "UndefinedRatioError".
Definition InsufficientDataError : exn := Exn "InsufficientDataError".

Inductive res (A : Type) : Type :=
| Ok (a : A)
| Raise (e : exn).
Arguments Ok {A} a.
Arguments Raise {A} e.

Definition res_bind {A B : Type} (r : res A) (k : A -> res B) : res B :=
  match r with
  | Ok a => k a
  | Raise e => Raise e
  end.

(** ** Numbers *)

(** Conversion of a Python [int] (here always a length or the literal 0)
    to [float64]. *)
Definition float_of_Z (z : Z) : float :=
  if (z <? 0)%Z then (- of_uint63 (Uint63.of_Z (- z)))%float
  else of_uint63 (Uint63.of_Z z).

Definition float_of_nat (n : nat) : float := float_of_Z (Z.of_nat n).

(** [x ** 2] on a [float64], taken as the correctly rounded product
    [x * x]. *)
Definition pow2 (x : float) : float := (x * x)%float.

(** [np.sum] of a list of floats, as [numpy] adds a contiguous array of
    [float64]: the sum starts from [0.0], to which the pairwise sum of the
    entries is added.  Fewer than eight entries are added from the left,
    starting from [0.0].  Up to 128 entries are added into eight running
    sums, entry [i] into sum [i mod 8]; the eight sums are added two by
    two, and the entries left over, fewer than eight, are added one by
    one.  A longer array is cut in two, the first part a multiple of eight
    long, and the sums of the two parts are added. *)
Fixpoint sum8 (r0 r1 r2 r3 r4 r5 r6 r7 : float) (a : list float) : float :=
  match a with
  | a0 :: a1 :: a2 :: a3 :: a4 :: a5 :: a6 :: a7 :: a' =>
      sum8 (r0 + a0) (r1 + a1) (r2 + a2) (r3 + a3)
           (r4 + a4) (r5 + a5) (r6 + a6) (r7 + a7) a'
  | _ =>
      fold_left (fun acc x => acc + x) a
                (((r0 + r1) + (r2 + r3)) + ((r4 + r5) + (r6 + r7)))
  end%float.

Definition block_sum (a : list float) : float :=
  match a with
  | r0 :: r1 :: r2 :: r3 :: r4 :: r5 :: r6 :: r7 :: a' =>
      sum8 r0 r1 r2 r3 r4 r5 r6 r7 a'
  | _ => fold_left (fun acc x => (acc + x)%float) a 0%float
  end.

(** The recursion on the two parts is not structural; [fuel] bounds its
    depth, and the length of the list is always enough
    ([pairwise_sum_fuel]). *)
Fixpoint pairwise_sum (fuel : nat) (a : list float) : float :=
  let n := length a in
  if (n <=? 128)%nat then block_sum a
  else
    match fuel with
    | O => block_sum a
    | S fuel' =>
        let n2 := (n / 2 - (n / 2) mod 8)%nat in
        (pairwise_sum fuel' (firstn n2 a)
         + pairwise_sum fuel' (skipn n2 a))%float
    end.

Definition np_sum (l : list float) : float :=
  (0 + pairwise_sum (length l) l)%float.

Definition np_sqrt (x : float) : float := sqrt x.

(** ** Series *)

(** The values of the ['Close'] column of a price table, oldest day at
    position 0.  A pandas series also carries the dates of its index; they
    are kept beside the values, as a list of day numbers with one number
    per value, wherever two series are aligned. *)
Definition Series : Type := list float.

(** [s[i]] with an integer key: positional, negative keys count from the
    end, and a key out of range raises [IndexError]. *)
Definition py_index {A : Type} (l : list A) (i : Z) : res A :=
  let n := Z.of_nat (length l) in
  let j := if (i <? 0)%Z then (i + n)%Z else i in
  if (j <? 0)%Z then Raise IndexError
  else match nth_error l (Z.to_nat j) with
       | Some x => Ok x
       | None => Raise IndexError
       end.

(** [s / n] for a series and a scalar. *)
Definition series_div (s : Series) (d : float) : Series :=
  map (fun x => (x / d)%float) s.

(** The price of a series on the day [d], where [s] holds the prices of the
    days [ds] in order; a day that the series lacks gives NaN, as pandas'
    alignment does. *)
Fixpoint price_on (d : Z) (ds : list Z) (s : Series) : float :=
  match ds, s with
  | d' :: ds', x :: s' => if (d =? d')%Z then x else price_on d ds' s'
  | _, _ => nan
  end.

(** [a += b] for two series with the dates [da] and [db].  pandas adds the
    prices of the same day, and the in-place operator keeps the index of its
    left operand: the sum has the days of [a], with NaN on the days that
    [b] lacks, and the days that only [b] has are dropped. *)
Fixpoint series_add (da : list Z) (a : Series) (db : list Z) (b : Series)
  : Series :=
  match da, a with
  | d :: da', x :: a' =>
      (x + price_on d db b)%float :: series_add da' a' db b
  | _, _ => []
  end.

(** The attribute [portf_value] starts as the [int] 0 and becomes a series
    with the first [+=]. *)
Inductive pyvalue : Type :=
| PyInt (z : Z)
| PySeries (s : Series).

(** [v += s], the right operand a series with the dates [ds].  Either [v]
    is an [int], which has no in-place addition, and [v + s] is a new
    series on the days of [s]; or [v] is a series with the dates [dv]. *)
Definition pyvalue_add (dv : list Z) (v : pyvalue) (ds : list Z)
    (s : Series) : pyvalue :=
  match v with
  | PyInt z => PySeries (map (fun x => (float_of_Z z + x)%float) s)
  | PySeries t => PySeries (series_add dv t ds s)
  end.

(** [v[i]]: an [int] is not subscriptable. *)
Definition subscript (v : pyvalue) (i : Z) : res float :=
  match v with
  | PyInt _ => Raise TypeError
  | PySeries s => py_index s i
  end.

(** [for i in v]: an [int] is not iterable. *)
Definition py_iter (v : pyvalue) : res (list float) :=
  match v with
  | PyInt _ => Raise TypeError
  | PySeries s => Ok s
  end.

(** ** The [Portfolio] object *)

(** [asset_list] and [risk_free_rate] are the dataclass fields; the other
    attributes are assigned by the methods, and [None] stands for an
    attribute that has not been assigned yet. *)
Record Portfolio : Type := mkPortfolio {
  asset_list : list string;
  risk_free_rate : float;
  portf_value : option pyvalue;
  portf_data : option (list Series);
  portf_return : option float;
  ner : option (list float);
  portf_beta : option float;
  dwn_dev : option float
}.

Definition set_portf_value (v : pyvalue) (p : Portfolio) : Portfolio :=
  mkPortfolio (asset_list p) (risk_free_rate p) (Some v) (portf_data p)
              (portf_return p) (ner p) (portf_beta p) (dwn_dev p).

Definition set_portf_data (d : list Series) (p : Portfolio) : Portfolio :=
  mkPortfolio (asset_list p) (risk_free_rate p) (portf_value p) (Some d)
              (portf_return p) (ner p) (portf_beta p) (dwn_dev p).

Definition set_portf_return (r : float) (p : Portfolio) : Portfolio :=
  mkPortfolio (asset_list p) (risk_free_rate p) (portf_value p) (portf_data p)
              (Some r) (ner p) (portf_beta p) (dwn_dev p).

Definition set_ner (l : list float) (p : Portfolio) : Portfolio :=
  mkPortfolio (asset_list p) (risk_free_rate p) (portf_value p) (portf_data p)
              (portf_return p) (Some l) (portf_beta p) (dwn_dev p).

Definition set_portf_beta (b : float) (p : Portfolio) : Portfolio :=
  mkPortfolio (asset_list p) (risk_free_rate p) (portf_value p) (portf_data p)
              (portf_return p) (ner p) (Some b) (dwn_dev p).

Definition set_dwn_dev (d : float) (p : Portfolio) : Portfolio :=
  mkPortfolio (asset_list p) (risk_free_rate p) (portf_value p) (portf_data p)
              (portf_return p) (ner p) (portf_beta p) (Some d).

(** ** Methods as state transformers that may raise *)

Definition M (A : Type) : Type := Portfolio -> res A * Portfolio.

Definition ret {A : Type} (a : A) : M A := fun self => (Ok a, self).

Definition raise {A : Type} (e : exn) : M A := fun self => (Raise e, self).

Definition bind {A B : Type} (m : M A) (k : A -> M B) : M B :=
  fun self =>
    match m self with
    | (Ok a, self') => k a self'
    | (Raise e, self') => (Raise e, self')
    end.

Definition lift {A : Type} (r : res A) : M A := fun self => (r, self).

(** [self.f] for a dataclass field. *)
Definition getfield {A : Type} (f : Portfolio -> A) : M A :=
  fun self => (Ok (f self), self).

(** [self.f] for an attribute assigned by a method. *)
Definition getattr {A : Type} (f : Portfolio -> option A) : M A :=
  fun self =>
    match f self with
    | Some a => (Ok a, self)
    | None => (Raise AttributeError, self)
    end.

(** [self.f = a]. *)
Definition setattr (upd : Portfolio -> Portfolio) : M unit :=
  fun self => (Ok tt, upd self).

Declare Scope py_scope.
Delimit Scope py_scope with py.
Notation "x <- m ;; k" := (bind m (fun x => k))
  (at level 61, m at next level, right associativity) : py_scope.
Notation "m ;; k" := (bind m (fun _ => k))
  (at level 61, right associativity) : py_scope.
Local Open Scope py_scope.

(** [for x in l: body]. *)
Fixpoint for_each {A : Type} (l : list A) (body : A -> M unit) : M unit :=
  match l with
  | [] => ret tt
  | x :: l' => body x ;; for_each l' body
  end.

Section WithProvider.

(** [history i] is the ['Close'] column that the price provider returns
    for the ticker [i] over the fixed window, and [days i] the dates of its
    index, one day number per price. *)
Variable days : string -> list Z.
Variable history : string -> Series.

(** The body of the loop of [_download_data] for the ticker [i].  The
    dates of [portf_value] are not stored: once it is a series, they are
    the dates of the first ticker of [asset_list], whose series the first
    [+=] turns into [portf_value] and whose index every later in-place
    [+=] keeps. *)
Definition download_body_on (i : string) : M unit :=
  let _asset_data := history i in
  v <- getattr portf_value ;;
  al <- getfield asset_list ;;
  setattr (set_portf_value
             (pyvalue_add (days (hd i al)) v (days i)
                          (series_div _asset_data
                                      (float_of_nat (length al))))) ;;
  d <- getattr portf_data ;;
  setattr (set_portf_data (d ++ [_asset_data])).

Definition _download_data_on : M unit :=
  setattr (set_portf_value (PyInt 0)) ;;
  setattr (set_portf_data []) ;;
  assets <- getfield asset_list ;;
  for_each assets download_body_on.

End WithProvider.

(** One trading calendar for all assets: every series starts on day 0 of
    the window and has a price on each day up to its last one. *)
Definition calendar (history : string -> Series) (i : string) : list Z :=
  map Z.of_nat (seq 0 (length (history i))).

(** [_download_data] with a provider whose series lie on one calendar. *)
Definition _download_data (history : string -> Series) : M unit :=
  _download_data_on (calendar history) history.

Definition _portfolio_return : M unit :=
  v <- getattr portf_value ;;
  vlast <- lift (subscript v (-1)) ;;
  v' <- getattr portf_value ;;
  vfirst <- lift (subscript v' 0) ;;
  setattr (set_portf_return ((vlast / vfirst - 1) * 100)%float).

(** The body of the loop of [_negative_excess_returns] for the item [i]. *)
Definition ner_body (i : float) : M unit :=
  v0 <- getattr portf_value ;;
  first <- lift (subscript v0 0) ;;
  rf <- getfield risk_free_rate ;;
  if (i <? first + rf)%float then
    v1 <- getattr portf_value ;;
    first' <- lift (subscript v1 0) ;;
    rf' <- getfield risk_free_rate ;;
    l <- getattr ner ;;
    setattr (set_ner (l ++ [pow2 ((i / (first' + rf') - 1) * 100)%float]))
  else ret tt.

Definition _negative_excess_returns : M unit :=
  setattr (set_ner []) ;;
  v <- getattr portf_value ;;
  items <- lift (py_iter v) ;;
  for_each items ner_body.

(** The two returns that [portfolio_beta] computes in local variables. *)
Definition _bench_return (close : Series) : res float :=
  res_bind (py_index close 0) (fun c0 =>
  res_bind (py_index close (-1)) (fun clast =>
  Ok ((c0 / clast - 1) * 100)%float)).

Definition _asset_return (i : Series) : res float :=
  res_bind (py_index i 0) (fun i0 =>
  res_bind (py_index i (-1)) (fun ilast =>
  Ok ((i0 / ilast - 1) * 100)%float)).

Section WithBenchmark.

(** The ['Close'] column that the provider returns for the benchmark
    ticker each time [portfolio_beta] downloads it. *)
Variable bench_close : Series.

(** The body of the loop of [portfolio_beta] for the series [i], with
    the benchmark return already computed. *)
Definition beta_body (_bench_return' : float) (i : Series) : M unit :=
  _asset_return' <- lift (_asset_return i) ;;
  i0 <- lift (py_index i 0) ;;
  v <- getattr portf_value ;;
  v0 <- lift (subscript v 0) ;;
  let _asset_share := (i0 / v0)%float in
  rf <- getfield risk_free_rate ;;
  let _asset_beta :=
    ((_asset_return' - rf) / (_bench_return' - rf))%float in
  b <- getattr portf_beta ;;
  d <- getattr portf_data ;;
  setattr (set_portf_beta
             (b + _asset_beta * _asset_share
                  / float_of_nat (length d))%float).

(** [self.portf_beta = 0] assigns the [int] 0, which the first [+=]
    converts to [0.0]; the attribute is modelled as a float throughout. *)
Definition portfolio_beta : M float :=
  _bench_return' <- lift (_bench_return bench_close) ;;
  setattr (set_portf_beta 0%float) ;;
  data <- getattr portf_data ;;
  for_each data (beta_body _bench_return') ;;
  getattr portf_beta.

End WithBenchmark.

Definition sortino_ratio : M float :=
  l <- getattr ner ;;
  setattr (set_dwn_dev (np_sqrt (np_sum l))) ;;
  r <- getattr portf_return ;;
  rf <- getfield risk_free_rate ;;
  d <- getattr dwn_dev ;;
  ret ((r - rf) / d)%float.

(** [Portfolio(asset_list, risk_free_rate)]: the generated [__init__]
    stores the two fields and calls [__post_init__]. *)
Definition __post_init__ (history : string -> Series) : M unit :=
  _download_data history ;;
  _portfolio_return ;;
  _negative_excess_returns.

Definition new_Portfolio (history : string -> Series)
    (assets : list string) (rfr : float) : res unit * Portfolio :=
  __post_init__ history
    (mkPortfolio assets rfr None None None None None None).

(** The constructor with a provider that returns its own dates for each
    ticker. *)
Definition new_Portfolio_on (days : string -> list Z)
    (history : string -> Series) (assets : list string) (rfr : float)
  : res unit * Portfolio :=
  (_download_data_on days history ;;
   _portfolio_return ;;
   _negative_excess_returns)
    (mkPortfolio assets rfr None None None None None None).

(** * Auxiliary definitions

    Functions and inputs that the statements below are written with: the
    loops as folds, the specification's wording of the derived set, and
    the concrete portfolios of the examples. *)

Local Open Scope float_scope.

(** The class of a float: [true] for zeros and finite numbers, [false]
    for the infinities and NaN. *)
Definition SFfinite (x : spec_float) : bool :=
  match x with
  | S754_zero _ | S754_finite _ _ _ => true
  | S754_infinity _ | S754_nan => false
  end.

Definition SFis_zero (x : spec_float) : bool :=
  match x with
  | S754_zero _ => true
  | _ => false
  end.

(** [true] for the floats that are not below zero: the zeros, the positive
    numbers, plus infinity, and NaN (which compares below nothing). *)
Definition SFnot_neg (x : spec_float) : bool :=
  match x with
  | S754_zero _ | S754_nan => true
  | S754_finite s _ _ | S754_infinity s => negb s
  end.

(** The object that holds a given value series and nothing else yet. *)
Definition with_value (rfr : float) (vs : Series) : Portfolio :=
  mkPortfolio [] rfr (Some (PySeries vs)) (Some []) None None None None.

(** The set as the specification words it: one squared deviation for each
    value below [value[first] + risk_free_rate], and nothing else. *)
Definition NegativeExcessReturnSet_spec (vs : Series) (rfr : float)
  : list float :=
  map (fun v => pow2 ((v / (hd 0 vs + rfr) - 1) * 100))
      (filter (fun v => v <? hd 0 vs + rfr) vs).

(** A portfolio of one asset whose price only rises, with a risk-free rate
    of zero: no value is below the threshold. *)
Definition rising (_ : string) : Series := [100; 110; 120].

(** Two assets with the same four closing prices. *)
Definition scenario_A (_ : string) : Series := [100; 110; 90; 120].

Definition portfolio_A : Portfolio :=
  snd (new_Portfolio scenario_A ["A"; "B"] 5).

(** What one asset adds to [portf_beta], as a function of what the loop
    reads: the benchmark return, the risk-free rate, the first portfolio
    value and the number of retained series. *)
Definition beta_term (br rf v0 : float) (n : nat) (i : Series) : res float :=
  res_bind (_asset_return i) (fun ar =>
  res_bind (py_index i 0) (fun i0 =>
  Ok ((ar - rf) / (br - rf) * (i0 / v0) / float_of_nat n))).

(** The loop of [portfolio_beta] as a fold: the outcome and the last value
    of the accumulator. *)
Fixpoint beta_acc (br rf v0 : float) (n : nat) (data : list Series)
    (b : float) : res unit * float :=
  match data with
  | [] => (Ok tt, b)
  | i :: rest =>
      match beta_term br rf v0 n i with
      | Ok t => beta_acc br rf v0 n rest (b + t)
      | Raise e => (Raise e, b)
      end
  end.



(** The outcome of the last of [k + 1] successive calls of a method. *)
Fixpoint call_again {A : Type} (m : M A) (k : nat) (self : Portfolio)
  : res A * Portfolio :=
  match k with
  | O => m self
  | S k' => call_again m k' (snd (m self))
  end.

(** One step of the loop of [_download_data] on the value: the series of
    the ticker [i] is added to [w], for the asset list [al]. *)
Definition value_step (days : string -> list Z) (history : string -> Series)
    (al : list string) (w : pyvalue) (i : string) : pyvalue :=
  pyvalue_add (days (hd i al)) w (days i)
              (series_div (history i) (float_of_nat (length al))).

(** The loop of [_download_data] as a fold over the tickers. *)
Fixpoint download_acc (days : string -> list Z) (history : string -> Series)
    (al assets : list string) (v : pyvalue) (d : list Series)
  : pyvalue * list Series :=
  match assets with
  | [] => (v, d)
  | i :: rest =>
      download_acc days history al rest
                   (value_step days history al v i) (d ++ [history i])
  end.






(** ** Rounding

    What is needed to follow the rounding of the primitive operations: the
    invariant of the shift-and-round records, the last step of rounding,
    and classes of floats by sign and magnitude. *)

(** The invariant of the shift-and-round records: the record holds the
    integer part of [N / D] and tells where the remainder lies. *)
Definition located (N D : Z) (mrs : shr_record) : Prop :=
  (0 < D /\ 0 <= shr_m mrs
   /\ 0 <= N - shr_m mrs * D < D
   /\ match shr_r mrs, shr_s mrs with
      | false, false => N - shr_m mrs * D = 0
      | false, true => 0 < 2 * (N - shr_m mrs * D) < D
      | true, false => 2 * (N - shr_m mrs * D) = D
      | true, true => D < 2 * (N - shr_m mrs * D)
      end)%Z.

(** The last step of rounding: the rounded mantissa is at most [2^53] and
    is renormalised when it reaches that bound. *)
Definition round_finish (s : bool) (m e : Z) : spec_float :=
  (if m =? 0 then S754_zero s
   else if m =? 9007199254740992 then
     if e + 1 <=? 971 then S754_finite s 4503599627370496 (e + 1)
     else S754_infinity s
   else if e <=? 971 then S754_finite s (Z.to_pos m) e
   else S754_infinity s)%Z.

(** The floats above zero: plus infinity and the positive numbers. *)
Definition SFpositive (x : spec_float) : bool :=
  match x with
  | S754_infinity false | S754_finite false _ _ => true
  | _ => false
  end.

(** The number one, [2^52 * 2^-52]. *)
Definition one_SF : spec_float :=
  S754_finite false 4503599627370496 (-52)%Z.

(** A float that is an infinity or a finite non-zero number of sign [s]
    and of magnitude at least [2 ^ (k - 1)]. *)
Definition mag_ge (s : bool) (k : Z) (x : spec_float) : Prop :=
  match x with
  | S754_infinity s' => s' = s
  | S754_finite s' m e => s' = s /\ (k <= Z.pos (digits2_pos m) + e)%Z
  | _ => False
  end.

(** A float that is not NaN and carries the sign [s]. *)
Definition SFsigned (s : bool) (x : spec_float) : Prop :=
  match x with
  | S754_zero s' | S754_infinity s' | S754_finite s' _ _ => s' = s
  | S754_nan => False
  end.

(** One asset whose price series holds minus infinity, with a rate that
    makes the threshold overflow. *)
Definition overflowing (_ : string) : Series := [1e308; neg_infinity].

(** Powers of two with a symbolic exponent are turned into positive atoms
    before linear arithmetic is called. *)
Ltac pow_atom x :=
  let HP := fresh "HP" in
  assert (HP : (0 < 2 ^ x)%Z) by (apply Z.pow_pos_nonneg; lia);
  generalize dependent (2 ^ x)%Z; intros.

Ltac pow_atoms :=
  repeat match goal with
         | |- context [(2 ^ ?x)%Z] => pow_atom x
         | H : context [(2 ^ ?x)%Z] |- _ => pow_atom x
         end.

Ltac digits_atoms :=
  repeat match goal with
         | |- context [digits2_pos ?p] =>
             generalize dependent (digits2_pos p); intros
         | H : context [digits2_pos ?p] |- _ =>
             generalize dependent (digits2_pos p); intros
         end.

Ltac plia := digits_atoms; pow_atoms; lia.

(** * Facts of binary64 arithmetic

    Everything here follows from the specification of the primitive
    operations ([add_spec], [div_spec], ...) by cases on the class of the
    operands; no rounding argument is needed. *)

Module FloatFacts.

Local Open Scope float_scope.

Lemma SFcompare_refl (s : bool) (m : positive) (e : Z) :
  SFcompare (S754_finite s m e) (S754_finite s m e) = Some Eq.
Proof.
  simpl. rewrite Z.compare_refl.
  assert (H : Pos.compare_cont Eq m m = Eq) by apply Pos.compare_cont_refl.
  rewrite H. destruct s; reflexivity.
Qed.

Lemma is_finite_SF (x : float) : is_finite x = SFfinite (Prim2SF x).
Proof.
  unfold is_finite, is_nan, is_infinity.
  rewrite !eqb_spec, abs_spec.
  change (Prim2SF infinity) with (S754_infinity false).
  unfold SFeqb.
  destruct (Prim2SF x) as [s| s| |s m e]; try (destruct s; reflexivity);
    try reflexivity.
  rewrite SFcompare_refl. reflexivity.
Qed.

Lemma is_nan_SF (x : float) :
  is_nan x = match Prim2SF x with S754_nan => true | _ => false end.
Proof.
  unfold is_nan. rewrite eqb_spec. unfold SFeqb.
  destruct (Prim2SF x) as [s| s| |s m e]; try (destruct s; reflexivity);
    try reflexivity.
  rewrite SFcompare_refl. reflexivity.
Qed.

Lemma eqb_zero_SF (d : float) : (d =? 0) = SFis_zero (Prim2SF d).
Proof.
  rewrite eqb_spec. change (Prim2SF 0) with (S754_zero false).
  unfold SFeqb.
  destruct (Prim2SF d) as [s| s| |s m e]; try (destruct s; reflexivity);
    reflexivity.
Qed.

(** [x / 0.0] is an infinity or NaN, whatever [x] is. *)
Lemma div_zero_not_finite (x d : float) :
  (d =? 0) = true -> is_finite (x / d) = false.
Proof.
  rewrite eqb_zero_SF, is_finite_SF, div_spec. unfold SF64div.
  destruct (Prim2SF d); try discriminate. intros _.
  destruct (Prim2SF x); reflexivity.
Qed.



Lemma mul_not_finite_l (x y : float) :
  is_finite x = false -> is_finite (x * y) = false.
Proof.
  rewrite !is_finite_SF, mul_spec. unfold SF64mul.
  destruct (Prim2SF x); try discriminate; intros _;
    destruct (Prim2SF y); reflexivity.
Qed.






Lemma add_comm (x y : float) : x + y = y + x.
Proof.
  apply Prim2SF_inj. rewrite !add_spec. unfold SF64add.
  destruct (Prim2SF x) as [s| s| |s m e], (Prim2SF y) as [s'| s'| |s' m' e'];
    try reflexivity; try (destruct s, s'; reflexivity).
  unfold SFadd. rewrite Z.min_comm, Z.add_comm. reflexivity.
Qed.

Lemma add_nan_l (y : float) : nan + y = nan.
Proof.
  apply Prim2SF_inj. rewrite add_spec. reflexivity.
Qed.

Lemma add_nan_r (x : float) : x + nan = nan.
Proof. rewrite add_comm. apply add_nan_l. Qed.


End FloatFacts.

(** * Rounding of binary64 arithmetic

    The operations of [SpecFloat] round an exact quotient, product, sum or
    square root to 53 bits.  This part follows that rounding far enough to
    bound results away from zero and from one. *)

Module Rounding.

Local Open Scope Z_scope.

Lemma digits2_pos_bounds (p : positive) :
  2 ^ (Z.pos (digits2_pos p) - 1) <= Z.pos p < 2 ^ Z.pos (digits2_pos p).
Proof.
  induction p as [p IH|p IH|]; cbn [digits2_pos].
  - rewrite Pos2Z.inj_succ, (Pos2Z.inj_xI p).
    replace (Z.succ (Z.pos (digits2_pos p)) - 1)
      with (Z.succ (Z.pos (digits2_pos p) - 1)) by plia.
    rewrite !Z.pow_succ_r by plia. plia.
  - rewrite Pos2Z.inj_succ, (Pos2Z.inj_xO p).
    replace (Z.succ (Z.pos (digits2_pos p)) - 1)
      with (Z.succ (Z.pos (digits2_pos p) - 1)) by plia.
    rewrite !Z.pow_succ_r by plia. plia.
  - simpl. lia.
Qed.

Lemma digits_le (p : positive) (k : Z) :
  0 <= k -> Z.pos p < 2 ^ k -> Z.pos (digits2_pos p) <= k.
Proof.
  intros Hk H. destruct (digits2_pos_bounds p) as [Hl _].
  assert (Hlt : 2 ^ (Z.pos (digits2_pos p) - 1) < 2 ^ k) by lia.
  apply Z.pow_lt_mono_r_iff in Hlt; lia.
Qed.

Lemma digits_ge (p : positive) (k : Z) :
  0 <= k -> 2 ^ k <= Z.pos p -> k + 1 <= Z.pos (digits2_pos p).
Proof.
  intros Hk H. destruct (digits2_pos_bounds p) as [_ Hu].
  assert (Hlt : 2 ^ k < 2 ^ Z.pos (digits2_pos p)) by lia.
  apply Z.pow_lt_mono_r_iff in Hlt; lia.
Qed.

Lemma Zdigits2_nonneg (m : Z) : 0 <= Zdigits2 m.
Proof. destruct m; simpl; lia. Qed.

Lemma Zdigits2_le (m k : Z) :
  0 <= k -> 0 <= m < 2 ^ k -> Zdigits2 m <= k.
Proof.
  intros Hk [H0 H]. destruct m as [|p|p]; simpl; try lia.
  apply digits_le; assumption.
Qed.

Lemma Zdigits2_ge (m k : Z) :
  0 <= k -> 2 ^ k <= m -> k + 1 <= Zdigits2 m.
Proof.
  intros Hk H. assert (0 < 2 ^ k) by (apply Z.pow_pos_nonneg; lia).
  destruct m as [|p|p]; simpl; try lia.
  apply digits_ge; assumption.
Qed.

Lemma Zdigits2_bounds (m : Z) :
  0 < m -> 2 ^ (Zdigits2 m - 1) <= m < 2 ^ Zdigits2 m.
Proof.
  destruct m as [|p|p]; try lia. intros _. apply digits2_pos_bounds.
Qed.

Lemma fexp_eq (e : Z) : fexp prec emax e = Z.max (e - 53) (-1074).
Proof. reflexivity. Qed.

(** One shift halves the scale of the record. *)
Lemma shr_1_located (N D : Z) (mrs : shr_record) :
  located N D mrs -> located N (2 * D) (shr_1 mrs).
Proof.
  destruct mrs as [m r s]. unfold located. cbn [shr_m shr_r shr_s].
  intros (HD & Hm & HF & Hl).
  destruct m as [|p|p]; [| |lia].
  - cbn [shr_1 shr_m shr_r shr_s orb].
    destruct r, s; cbn [orb]; lia.
  - destruct p as [p|p|]; cbn [shr_1 shr_m shr_r shr_s].
    + rewrite (Pos2Z.inj_xI p) in *.
      destruct r, s; cbn [orb]; lia.
    + rewrite (Pos2Z.inj_xO p) in *.
      destruct r, s; cbn [orb]; lia.
    + destruct r, s; cbn [orb]; lia.
Qed.

Lemma iter_shr_1_located (p : positive) :
  forall (N D : Z) (mrs : shr_record),
    located N D mrs ->
    located N (D * 2 ^ Z.pos p) (iter_pos shr_1 p mrs).
Proof.
  induction p as [p IH|p IH|]; intros N D mrs H; cbn [iter_pos].
  - apply shr_1_located in H. apply IH in H. apply IH in H.
    replace (D * 2 ^ Z.pos p~1) with (2 * D * 2 ^ Z.pos p * 2 ^ Z.pos p);
      [exact H|].
    rewrite (Pos2Z.inj_xI p).
    replace (2 * Z.pos p + 1) with (Z.pos p + Z.pos p + 1) by lia.
    rewrite !Z.pow_add_r by lia. ring.
  - apply IH in H. apply IH in H.
    replace (D * 2 ^ Z.pos p~0) with (D * 2 ^ Z.pos p * 2 ^ Z.pos p);
      [exact H|].
    rewrite (Pos2Z.inj_xO p).
    replace (2 * Z.pos p) with (Z.pos p + Z.pos p) by lia.
    rewrite !Z.pow_add_r by lia. ring.
  - apply shr_1_located in H.
    replace (D * 2 ^ 1) with (2 * D) by ring. exact H.
Qed.

Lemma shr_fexp_located (m e : Z) (l : location) (N D : Z) :
  located N D (shr_record_of_loc m l) ->
  exists mrs e1,
    shr_fexp prec emax m e l = (mrs, e1)
    /\ e1 = Z.max e (fexp prec emax (Zdigits2 m + e))
    /\ located N (D * 2 ^ (e1 - e)) mrs.
Proof.
  intros H. unfold shr_fexp, shr.
  destruct (fexp prec emax (Zdigits2 m + e) - e) as [|p|p] eqn:En.
  - exists (shr_record_of_loc m l), e. split; [reflexivity|]. split; [lia|].
    rewrite Z.sub_diag, Z.mul_1_r. exact H.
  - exists (iter_pos shr_1 p (shr_record_of_loc m l)), (e + Z.pos p).
    split; [reflexivity|]. split; [lia|].
    replace (e + Z.pos p - e) with (Z.pos p) by lia.
    apply iter_shr_1_located, H.
  - exists (shr_record_of_loc m l), e. split; [reflexivity|]. split; [lia|].
    rewrite Z.sub_diag, Z.mul_1_r. exact H.
Qed.

Lemma shr_m_of_loc (m : Z) (l : location) : shr_m (shr_record_of_loc m l) = m.
Proof. destruct l as [|[| |]]; reflexivity. Qed.

(** The mantissa after a shift is the quotient of the mantissa before. *)
Lemma located_shift (N D P m m1 : Z) :
  0 < D -> 0 < P ->
  0 <= N - m * D < D -> 0 <= N - m1 * (D * P) < D * P ->
  m1 * P <= m < (m1 + 1) * P.
Proof. intros HD HP H1 H2. nia. Qed.

Lemma round_nearest_even_located (N D : Z) (mrs : shr_record) :
  located N D mrs ->
  (round_nearest_even (shr_m mrs) (loc_of_shr_record mrs) = shr_m mrs
   /\ 2 * N <= (2 * shr_m mrs + 1) * D)
  \/ (round_nearest_even (shr_m mrs) (loc_of_shr_record mrs) = shr_m mrs + 1
      /\ (2 * shr_m mrs + 1) * D <= 2 * N).
Proof.
  destruct mrs as [m r s]. unfold located. cbn [shr_m shr_r shr_s].
  intros (HD & Hm & HF & Hl).
  destruct r, s; cbn [loc_of_shr_record round_nearest_even].
  - right. split; [reflexivity|lia].
  - destruct (Z.even m); [left|right]; (split; [reflexivity|lia]).
  - left. split; [reflexivity|lia].
  - left. split; [reflexivity|lia].
Qed.

(** What rounding computes: the scaled quotient is shifted to the exponent
    of the format, rounded to nearest, and renormalised. *)
Lemma binary_round_aux_spec (s : bool) (m e : Z) (l : location) (N D : Z) :
  located N D (shr_record_of_loc m l) ->
  exists mrs e1,
    e1 = Z.max e (fexp prec emax (Zdigits2 m + e))
    /\ located N (D * 2 ^ (e1 - e)) mrs
    /\ shr_m mrs * 2 ^ (e1 - e) <= m < (shr_m mrs + 1) * 2 ^ (e1 - e)
    /\ shr_m mrs < 9007199254740992
    /\ binary_round_aux prec emax s m e l
       = round_finish s (round_nearest_even (shr_m mrs)
                                            (loc_of_shr_record mrs)) e1.
Proof.
  intros H.
  destruct (shr_fexp_located m e l N D H) as (mrs & e1 & Es & Ee & Hl).
  exists mrs, e1. split; [exact Ee|]. split; [exact Hl|].
  assert (Hm0 : 0 <= m).
  { destruct H as (_ & Hm & _). rewrite shr_m_of_loc in Hm. exact Hm. }
  assert (Hn : 0 <= e1 - e) by lia.
  assert (HP : 0 < 2 ^ (e1 - e)) by (apply Z.pow_pos_nonneg; lia).
  assert (Hq : shr_m mrs * 2 ^ (e1 - e) <= m < (shr_m mrs + 1) * 2 ^ (e1 - e)).
  { destruct H as (HD & _ & HF & _). rewrite shr_m_of_loc in HF.
    destruct Hl as (_ & _ & HF1 & _).
    apply (located_shift N D (2 ^ (e1 - e)) m (shr_m mrs)); assumption. }
  split; [exact Hq|].
  assert (Hm1 : 0 <= shr_m mrs) by (destruct Hl as (_ & Hm1 & _); exact Hm1).
  assert (Hb : shr_m mrs < 9007199254740992).
  { destruct (Z.eq_dec m 0) as [->|Hne].
    - nia.
    - destruct (Zdigits2_bounds m ltac:(lia)) as [_ Hu].
      assert (Hd : Zdigits2 m <= 53 + (e1 - e)).
      { rewrite fexp_eq in Ee. lia. }
      assert (Hle : 2 ^ Zdigits2 m <= 2 ^ (53 + (e1 - e))).
      { apply Z.pow_le_mono_r; lia. }
      rewrite Z.pow_add_r in Hle by lia.
      change (2 ^ 53) with 9007199254740992 in Hle. nia. }
  split; [exact Hb|].
  unfold binary_round_aux. rewrite Es.
  destruct (round_nearest_even_located _ _ _ Hl) as [[-> _]|[-> _]].
  - (* the mantissa is kept *)
    set (m1 := shr_m mrs) in *.
    assert (Hd1 : Zdigits2 m1 <= 53).
    { apply Zdigits2_le; [lia|]. change (2 ^ 53) with 9007199254740992. lia. }
    unfold shr_fexp, shr. rewrite fexp_eq in *.
    destruct (Z.max (Zdigits2 m1 + e1 - 53) (-1074) - e1) as [|p|p] eqn:En;
      [| lia |];
      rewrite shr_m_of_loc; unfold round_finish;
      (destruct m1 as [|q|q]; [reflexivity| |lia]);
      cbn [Z.eqb]; (destruct (Pos.eqb_spec q 9007199254740992) as [->|_];
                    [lia|]); reflexivity.
  - (* the mantissa is incremented *)
    set (m1 := shr_m mrs) in *.
    destruct (Z.eq_dec (m1 + 1) 9007199254740992) as [E|NE].
    + rewrite E. unfold shr_fexp, shr. rewrite fexp_eq in *.
      change (Zdigits2 9007199254740992) with 54.
      replace (Z.max (54 + e1 - 53) (-1074) - e1) with 1 by lia.
      reflexivity.
    + assert (Hd1 : Zdigits2 (m1 + 1) <= 53).
      { apply Zdigits2_le; [lia|]. change (2 ^ 53) with 9007199254740992.
        lia. }
      unfold shr_fexp, shr. rewrite fexp_eq in *.
      destruct (Z.max (Zdigits2 (m1 + 1) + e1 - 53) (-1074) - e1)
        as [|p|p] eqn:En; [| lia |];
        cbn [shr_record_of_loc shr_m]; unfold round_finish;
        (destruct (m1 + 1) as [|q|q] eqn:Eq1; [reflexivity| |lia]);
        cbn [Z.eqb]; (destruct (Pos.eqb_spec q 9007199254740992) as [->|_];
                      [lia|]); reflexivity.
Qed.

Lemma located_exists (m : Z) (l : location) :
  0 <= m -> exists N D, located N D (shr_record_of_loc m l).
Proof.
  intros Hm. destruct l as [|[| |]].
  - exists (4 * m), 4. unfold located.
    cbn [shr_record_of_loc shr_m shr_r shr_s]. lia.
  - exists (4 * m + 2), 4. unfold located.
    cbn [shr_record_of_loc shr_m shr_r shr_s]. lia.
  - exists (4 * m + 1), 4. unfold located.
    cbn [shr_record_of_loc shr_m shr_r shr_s]. lia.
  - exists (4 * m + 3), 4. unfold located.
    cbn [shr_record_of_loc shr_m shr_r shr_s]. lia.
Qed.

Lemma mag_ge_weaken (s : bool) (k k' : Z) (x : spec_float) :
  k' <= k -> mag_ge s k x -> mag_ge s k' x.
Proof.
  intros Hk. destruct x as [s'|s'| |s' m e]; cbn [mag_ge]; try tauto.
  intros [-> H]. split; [reflexivity|]. plia.
Qed.

Lemma round_finish_signed (s : bool) (m e : Z) :
  SFsigned s (round_finish s m e).
Proof.
  unfold round_finish.
  destruct (m =? 0); [reflexivity|].
  destruct (m =? 9007199254740992).
  - destruct (e + 1 <=? 971); reflexivity.
  - destruct (e <=? 971); reflexivity.
Qed.

(** Rounding a mantissa that is not negative never gives NaN and keeps
    the sign. *)
Lemma binary_round_aux_signed (s : bool) (m e : Z) (l : location) :
  0 <= m -> SFsigned s (binary_round_aux prec emax s m e l).
Proof.
  intros Hm. destruct (located_exists m l Hm) as (N & D & H).
  destruct (binary_round_aux_spec s m e l N D H)
    as (mrs & e1 & _ & _ & _ & _ & ->).
  apply round_finish_signed.
Qed.

Lemma Zdigits2_to_pos (m : Z) :
  0 < m -> Z.pos (digits2_pos (Z.to_pos m)) = Zdigits2 m.
Proof. destruct m; simpl; lia || reflexivity. Qed.

(** Rounding does not decrease the magnitude, and no number above the
    smallest subnormal is rounded to zero. *)
Lemma binary_round_aux_mag (s : bool) (m e : Z) (l : location) :
  0 < m -> -1074 < Zdigits2 m + e ->
  mag_ge s (Zdigits2 m + e) (binary_round_aux prec emax s m e l).
Proof.
  intros Hm Hmu.
  destruct (located_exists m l ltac:(lia)) as (N & D & H).
  destruct (binary_round_aux_spec s m e l N D H)
    as (mrs & e1 & Ee & Hl & Hq & Hb & ->).
  rewrite fexp_eq in Ee.
  destruct (Zdigits2_bounds m Hm) as [Hlo _].
  set (d := Zdigits2 m) in *. set (m1 := shr_m mrs) in *.
  assert (Hd : 1 <= d) by (subst d; destruct m; simpl; lia).
  assert (Hk : 0 <= d - 1 - (e1 - e)) by lia.
  assert (Hm1 : 2 ^ (d - 1 - (e1 - e)) <= m1).
  { replace (d - 1) with (d - 1 - (e1 - e) + (e1 - e)) in Hlo by lia.
    rewrite Z.pow_add_r in Hlo by lia.
    assert (HP : 0 < 2 ^ (e1 - e)) by (apply Z.pow_pos_nonneg; lia).
    assert (HQ : 0 < 2 ^ (d - 1 - (e1 - e))) by (apply Z.pow_pos_nonneg; lia).
    nia. }
  assert (HQ : 0 < 2 ^ (d - 1 - (e1 - e))) by (apply Z.pow_pos_nonneg; lia).
  assert (Hr : m1 <= round_nearest_even m1 (loc_of_shr_record mrs)).
  { unfold m1.
    destruct (round_nearest_even_located _ _ _ Hl) as [[-> _]|[-> _]]; lia. }
  set (m' := round_nearest_even m1 (loc_of_shr_record mrs)) in *.
  assert (Hd' : d - (e1 - e) <= Zdigits2 m').
  { replace (d - (e1 - e)) with (d - 1 - (e1 - e) + 1) by lia.
    apply Zdigits2_ge; lia. }
  assert (Hd1 : Zdigits2 m1 <= 53).
  { apply Zdigits2_le; [lia|]. change (2 ^ 53) with 9007199254740992.
    split; [lia|exact Hb]. }
  assert (Hd1' : d - (e1 - e) <= Zdigits2 m1).
  { replace (d - (e1 - e)) with (d - 1 - (e1 - e) + 1) by lia.
    apply Zdigits2_ge; lia. }
  unfold round_finish.
  destruct (Z.eqb_spec m' 0) as [E0|_]; [lia|].
  destruct (Z.eqb_spec m' 9007199254740992) as [E|_].
  - destruct (e1 + 1 <=? 971); [|reflexivity].
    split; [reflexivity|]. change (Z.pos (digits2_pos 4503599627370496)) with 53.
    lia.
  - destruct (e1 <=? 971); [|reflexivity].
    split; [reflexivity|]. rewrite Zdigits2_to_pos by lia. lia.
Qed.

Lemma pos_iter_xO (m d : positive) :
  Z.pos (Pos.iter xO m d) = Z.pos m * 2 ^ Z.pos d.
Proof.
  change (Pos.iter xO m d) with (shift_pos d m).
  rewrite shift_pos_correct. change (2 ^ Z.pos d) with (Z.pow_pos 2 d).
  apply Z.mul_comm.
Qed.

Lemma shl_align_spec (mx : positive) (ex ex' : Z) :
  snd (shl_align mx ex ex') = Z.min ex ex'
  /\ Z.pos (fst (shl_align mx ex ex'))
     = Z.pos mx * 2 ^ (ex - snd (shl_align mx ex ex')).
Proof.
  unfold shl_align. destruct (ex' - ex) as [|d|d] eqn:E; cbn [fst snd].
  - split; [lia|]. rewrite Z.sub_diag. lia.
  - split; [lia|]. rewrite Z.sub_diag. lia.
  - split; [lia|]. rewrite pos_iter_xO. f_equal. f_equal. lia.
Qed.

Lemma Zdigits2_mul_pow2 (m k : Z) :
  0 < m -> 0 <= k -> Zdigits2 m + k <= Zdigits2 (m * 2 ^ k).
Proof.
  intros Hm Hk. destruct (Zdigits2_bounds m Hm) as [Hlo _].
  assert (Hd : 1 <= Zdigits2 m) by (destruct m; simpl; lia).
  replace (Zdigits2 m + k) with (Zdigits2 m - 1 + k + 1) by lia.
  apply Zdigits2_ge; [lia|].
  rewrite Z.pow_add_r by lia.
  assert (HP : 0 < 2 ^ k) by (apply Z.pow_pos_nonneg; lia).
  nia.
Qed.

Lemma binary_round_mag (s : bool) (m : positive) (e : Z) :
  -1074 < Z.pos (digits2_pos m) + e ->
  mag_ge s (Z.pos (digits2_pos m) + e) (binary_round prec emax s m e).
Proof.
  intros Hmu. unfold binary_round.
  destruct (shl_align_spec m e (fexp prec emax (Z.pos (digits2_pos m) + e)))
    as [He Hv].
  destruct (shl_align m e _) as [mz ez]. cbn [fst snd] in He, Hv.
  assert (Hd : Z.pos (digits2_pos m) + (e - ez) <= Zdigits2 (Z.pos mz)).
  { rewrite Hv. apply (Zdigits2_mul_pow2 (Z.pos m)); lia. }
  apply (mag_ge_weaken s (Zdigits2 (Z.pos mz) + ez)); [lia|].
  apply binary_round_aux_mag; lia.
Qed.

Lemma valid_finite (s : bool) (m : positive) (e : Z) :
  valid_binary (S754_finite s m e) = true ->
  -1074 <= e <= 971 /\ Z.pos (digits2_pos m) <= 53
  /\ (-1074 < e -> Z.pos (digits2_pos m) = 53).
Proof.
  unfold SpecFloat.valid_binary, bounded, canonical_mantissa.
  rewrite andb_true_iff, Z.eqb_eq, Z.leb_le, fexp_eq.
  change (emax - prec) with 971. plia.
Qed.

Lemma digits2_pos_mul (a b : positive) :
  Z.pos (digits2_pos a) + Z.pos (digits2_pos b) - 1
  <= Z.pos (digits2_pos (a * b)).
Proof.
  destruct (digits2_pos_bounds a) as [Ha _].
  destruct (digits2_pos_bounds b) as [Hb _].
  replace (Z.pos (digits2_pos a) + Z.pos (digits2_pos b) - 1)
    with ((Z.pos (digits2_pos a) - 1) + (Z.pos (digits2_pos b) - 1) + 1)
    by plia.
  apply digits_ge; [plia|].
  rewrite Z.pow_add_r by plia. rewrite Pos2Z.inj_mul.
  assert (0 < 2 ^ (Z.pos (digits2_pos a) - 1))
    by (apply Z.pow_pos_nonneg; plia).
  assert (0 < 2 ^ (Z.pos (digits2_pos b) - 1))
    by (apply Z.pow_pos_nonneg; plia).
  nia.
Qed.

(** A product of two numbers of known magnitude that does not underflow. *)
Lemma SFmul_mag (sx sy : bool) (kx ky : Z) (x y : spec_float) :
  mag_ge sx kx x -> mag_ge sy ky y -> -1074 < kx + ky - 1 ->
  mag_ge (xorb sx sy) (kx + ky - 1) (SFmul prec emax x y).
Proof.
  destruct x as [s|s| |s m e]; cbn [mag_ge SFmul]; try tauto;
    destruct y as [s'|s'| |s' m' e']; cbn [mag_ge SFmul]; try tauto.
  - intros -> ->. reflexivity.
  - intros -> [-> _]. reflexivity.
  - intros [-> _] ->. reflexivity.
  - intros [-> Hx] [-> Hy] Hk.
    pose proof (digits2_pos_mul m m') as Hd.
    apply (mag_ge_weaken _ (Zdigits2 (Z.pos (m * m')) + (e + e')));
      [cbn [Zdigits2]; plia|].
    apply binary_round_aux_mag; [lia|cbn [Zdigits2]; plia].
Qed.

Lemma Zdigits2_abs_ge (m k : Z) :
  0 <= k -> 2 ^ k <= Z.abs m -> k + 1 <= Zdigits2 m.
Proof.
  intros Hk H. assert (0 < 2 ^ k) by (apply Z.pow_pos_nonneg; lia).
  destruct m as [|p|p]; cbn [Z.abs Zdigits2] in *; try lia;
    apply digits_ge; assumption.
Qed.

Lemma binary_normalize_mag (m e : Z) (sz : bool) :
  m <> 0 -> -1074 < Zdigits2 m + e ->
  mag_ge (m <? 0) (Zdigits2 m + e) (binary_normalize prec emax m e sz).
Proof.
  intros Hm Hmu. destruct m as [|p|p]; [congruence| |];
    cbn [binary_normalize Zdigits2 Z.ltb Z.compare] in *;
    apply binary_round_mag; exact Hmu.
Qed.

Lemma valid_finite_bounds (s : bool) (m : positive) (e : Z) :
  valid_binary (S754_finite s m e) = true ->
  -1074 <= e <= 971 /\ Z.pos m < 9007199254740992
  /\ (-1074 < e -> 4503599627370496 <= Z.pos m).
Proof.
  intros H. apply valid_finite in H. destruct H as (He & Hd & Hn).
  destruct (digits2_pos_bounds m) as [Hlo Hhi].
  split; [exact He|]. split.
  - assert (Hle : 2 ^ Z.pos (digits2_pos m) <= 2 ^ 53)
      by (apply Z.pow_le_mono_r; plia).
    change (2 ^ 53) with 9007199254740992 in Hle. plia.
  - intros He'. rewrite (Hn He') in Hlo.
    change (2 ^ (53 - 1)) with 4503599627370496 in Hlo. exact Hlo.
Qed.

(** A number that is not one stays away from one: the difference is at
    least [2^-53] in magnitude. *)
Lemma SFsub_one_mag (q : spec_float) :
  valid_binary q = true -> q <> S754_nan -> q <> one_SF ->
  exists s, mag_ge s (-52) (SFsub prec emax q one_SF).
Proof.
  intros Hv Hnan Hne. destruct q as [s|s| |s m e]; [| |congruence|].
  - exists true. cbn. split; [reflexivity|]. lia.
  - exists s. reflexivity.
  - unfold one_SF in *. cbn [SFsub].
    destruct (valid_finite_bounds s m e Hv) as (He & Hm & Hn).
    set (ez := Z.min e (-52)).
    destruct (shl_align_spec m e ez) as [E1 V1].
    destruct (shl_align_spec 4503599627370496 (-52) ez) as [E2 V2].
    rewrite E1 in V1. rewrite E2 in V2.
    replace (Z.min e ez) with ez in V1 by lia.
    replace (Z.min (-52) ez) with ez in V2 by lia.
    rewrite V1, V2. clear E1 E2 V1 V2.
    set (Z0 := cond_Zopp s (Z.pos m * 2 ^ (e - ez))
               - cond_Zopp false (4503599627370496 * 2 ^ (-52 - ez))).
    assert (HZ : Z0 <> 0 /\ -52 <= Zdigits2 Z0 + ez).
    { destruct (Z_le_gt_dec (-52) e) as [Hle|Hgt].
      - (* the exponent of one is the smaller *)
        assert (Eez : ez = -52) by (unfold ez; lia).
        assert (HZ0 : Z0 <> 0).
        { unfold Z0. rewrite Eez. replace (-52 - -52) with 0 by lia.
          rewrite Z.pow_0_r. cbn [cond_Zopp].
          destruct (Z.eq_dec e (-52)) as [->|Hne'].
          - replace (-52 - -52) with 0 by lia. rewrite Z.pow_0_r.
            destruct s; cbn [cond_Zopp]; [lia|].
            intros E. apply Hne. f_equal. lia.
          - assert (HP : 2 <= 2 ^ (e - -52)).
            { change 2 with (2 ^ 1) at 1. apply Z.pow_le_mono_r; lia. }
            specialize (Hn ltac:(lia)).
            destruct s; cbn [cond_Zopp]; nia. }
        split; [exact HZ0|].
        assert (1 <= Zdigits2 Z0) by (destruct Z0; cbn; lia).
        lia.
      - (* the exponent of [q] is the smaller *)
        assert (Eez : ez = e) by (unfold ez; lia).
        unfold Z0. rewrite Eez. rewrite Z.sub_diag, Z.pow_0_r, Z.mul_1_r.
        replace (-52 - e) with (1 + (-53 - e)) by lia.
        rewrite Z.pow_add_r by lia. change (2 ^ 1) with 2.
        assert (HP : 0 < 2 ^ (-53 - e)) by (apply Z.pow_pos_nonneg; lia).
        cbn [cond_Zopp].
        assert (Habs : 2 ^ (-53 - e)
                       <= Z.abs (cond_Zopp s (Z.pos m)
                                 - 4503599627370496 * (2 * 2 ^ (-53 - e)))).
        { destruct s; cbn [cond_Zopp]; lia. }
        split; [lia|].
        apply Zdigits2_abs_ge in Habs; lia. }
    destruct HZ as [HZ0 HZd].
    exists (Z0 <? 0).
    apply (mag_ge_weaken _ (Zdigits2 Z0 + ez)); [lia|].
    apply binary_normalize_mag; [exact HZ0|].
    assert (1 <= Zdigits2 Z0) by (destruct Z0; cbn; lia).
    unfold ez. lia.
Qed.

(** Adding a float that is not negative to a positive float gives a
    positive float. *)
Lemma SFadd_positive (x y : spec_float) :
  valid_binary x = true -> valid_binary y = true ->
  SFpositive x = true -> SFsigned false y ->
  SFpositive (SFadd prec emax x y) = true.
Proof.
  intros Hvx Hvy.
  destruct x as [s|s| |s m e]; cbn [SFpositive]; try discriminate;
    destruct s; try discriminate; intros _;
    destruct y as [s'|s'| |s' m' e']; cbn [SFsigned]; try tauto;
    intros ->; try reflexivity.
  cbn [SFadd cond_Zopp].
  destruct (valid_finite_bounds _ _ _ Hvx) as (He & _).
  destruct (valid_finite_bounds _ _ _ Hvy) as (He' & _).
  set (Z0 := Z.pos (fst (shl_align m e (Z.min e e')))
             + Z.pos (fst (shl_align m' e' (Z.min e e')))).
  assert (HZ : 0 < Z0) by (unfold Z0; lia).
  assert (Hd : 1 <= Zdigits2 Z0) by (destruct Z0; cbn; lia).
  pose proof (binary_normalize_mag Z0 (Z.min e e') false ltac:(lia)
                                   ltac:(lia)) as H.
  replace (Z0 <? 0) with false in H by (symmetry; apply Z.ltb_ge; lia).
  destruct (binary_normalize prec emax Z0 (Z.min e e') false)
    as [s|s| |s m1 e1]; cbn [mag_ge] in H; try tauto.
  - subst s. reflexivity.
  - destruct H as [-> _]. reflexivity.
Qed.

Lemma SFadd_zero_l (y : spec_float) :
  SFsigned false y -> SFadd prec emax (S754_zero false) y = y.
Proof.
  destruct y as [s|s| |s m e]; cbn [SFsigned]; try tauto; intros ->;
    reflexivity.
Qed.

(** The square root of a positive float is positive. *)
Lemma SFsqrt_positive (x : spec_float) :
  valid_binary x = true -> SFpositive x = true ->
  SFpositive (SFsqrt prec emax x) = true.
Proof.
  intros Hv. destruct x as [s|s| |s m e]; cbn [SFpositive]; try discriminate;
    destruct s; try discriminate; intros _; [reflexivity|].
  destruct (valid_finite_bounds _ _ _ Hv) as (He & _).
  cbn [SFsqrt]. unfold SFsqrt_core_binary.
  set (e' := Z.min _ (Z.div2 e)).
  assert (Hdiv : Z.div2 e = e / 2) by apply Z.div2_div.
  assert (He' : -1074 <= e' /\ 2 * e' <= e).
  { unfold e'. rewrite fexp_eq, Hdiv. clear Hdiv.
    generalize (IntDef.Z.div2 (Zdigits2 (Z.pos m) + e + 1)). intros z.
    pose proof (Z.mul_div_le e 2 ltac:(lia)) as H1.
    pose proof (Z.mul_succ_div_gt e 2 ltac:(lia)) as H2.
    generalize dependent (e / 2). intros h H1 H2. lia. }
  set (m' := match e - 2 * e' with
             | 0 => Z.pos m
             | Z.pos _ => Z.shiftl (Z.pos m) (e - 2 * e')
             | Z.neg _ => 0
             end).
  assert (Hm' : 1 <= m').
  { unfold m'. destruct (e - 2 * e') as [|p|p] eqn:E; [lia| |lia].
    rewrite Z.shiftl_mul_pow2 by lia.
    assert (0 < 2 ^ Z.pos p) by (apply Z.pow_pos_nonneg; lia). nia. }
  pose proof (Z.sqrtrem_spec m' ltac:(lia)) as Hs.
  destruct (Z.sqrtrem m') as [q r].
  assert (Hq : 1 <= q) by nia.
  assert (Hd : 1 <= Zdigits2 q) by (destruct q; cbn; lia).
  pose proof (binary_round_aux_mag false q e'
                (if r =? 0 then loc_Exact
                 else loc_Inexact (if r <=? q then Lt else Gt))
                ltac:(lia) ltac:(lia)) as H.
  destruct (binary_round_aux prec emax false q e' _)
    as [s|s| |s m1 e1]; cbn [mag_ge] in H; try tauto.
  - subst s. reflexivity.
  - destruct H as [-> _]. reflexivity.
Qed.

Lemma new_location_located (my q r : Z) :
  0 < my -> 0 <= q -> 0 <= r < my ->
  located (my * q + r) my (shr_record_of_loc q (new_location my r)).
Proof.
  intros Hmy Hq Hr. unfold new_location.
  assert (HF : my * q + r - q * my = r) by ring.
  destruct (Z.even my) eqn:Ev.
  - unfold new_location_even.
    destruct (Z.eqb_spec r 0) as [->|Hne].
    + unfold located. cbn [shr_record_of_loc shr_m shr_r shr_s].
      rewrite HF. lia.
    + destruct (Z.compare_spec (2 * r) my) as [E|E|E]; unfold located;
        cbn [shr_record_of_loc shr_m shr_r shr_s]; rewrite HF; lia.
  - unfold new_location_odd.
    assert (Hodd : 2 * r <> my).
    { intros E. rewrite <- E, Z.even_mul in Ev. discriminate Ev. }
    destruct (Z.eqb_spec r 0) as [->|Hne].
    + unfold located. cbn [shr_record_of_loc shr_m shr_r shr_s].
      rewrite HF. lia.
    + destruct (Z.compare_spec (2 * r + 1) my) as [E|E|E]; unfold located;
        cbn [shr_record_of_loc shr_m shr_r shr_s]; rewrite HF; lia.
Qed.

(** The division of the mantissas: the quotient and the place of the
    remainder, at the exponent the format asks for. *)
Lemma SFdiv_core_located (mx : positive) (ex : Z) (my : positive) (ey : Z) :
  exists q e' l,
    SFdiv_core_binary prec emax (Z.pos mx) ex (Z.pos my) ey = (q, e', l)
    /\ e' = Z.min (fexp prec emax (Z.pos (digits2_pos mx) + ex
                                   - (Z.pos (digits2_pos my) + ey)))
                  (ex - ey)
    /\ located (Z.pos mx * 2 ^ (ex - ey - e')) (Z.pos my)
               (shr_record_of_loc q l).
Proof.
  unfold SFdiv_core_binary. cbn [Zdigits2].
  set (e' := Z.min _ (ex - ey)).
  assert (Hs : 0 <= ex - ey - e') by (unfold e'; lia).
  set (m' := match ex - ey - e' with
             | 0 => Z.pos mx
             | Z.pos _ => Z.shiftl (Z.pos mx) (ex - ey - e')
             | Z.neg _ => 0
             end).
  assert (Hm' : m' = Z.pos mx * 2 ^ (ex - ey - e')).
  { unfold m'. destruct (ex - ey - e') as [|p|p] eqn:E.
    - rewrite Z.pow_0_r. lia.
    - apply Z.shiftl_mul_pow2. lia.
    - lia. }
  assert (Hpos : 0 < m').
  { rewrite Hm'. assert (0 < 2 ^ (ex - ey - e'))
      by (apply Z.pow_pos_nonneg; lia). nia. }
  pose proof (Z_div_mod m' (Z.pos my) ltac:(lia)) as Hdm.
  destruct (Z.div_eucl m' (Z.pos my)) as [q r].
  destruct Hdm as [Hdm Hr].
  exists q, e', (new_location (Z.pos my) r).
  split; [reflexivity|]. split; [reflexivity|].
  rewrite <- Hm', Hdm.
  apply new_location_located; [lia| |exact Hr]. nia.
Qed.

Lemma binary_round_aux_sign (s s' : bool) (m e : Z) (l : location)
    (m' : positive) (e' : Z) :
  0 <= m ->
  binary_round_aux prec emax s m e l = S754_finite s' m' e' -> s' = s.
Proof.
  intros Hm E. pose proof (binary_round_aux_signed s m e l Hm) as H.
  rewrite E in H. exact H.
Qed.

Lemma round_finish_one (m e : Z) :
  0 <= m -> round_finish false m e = one_SF ->
  (m = 9007199254740992 /\ e = -53) \/ (m = 4503599627370496 /\ e = -52).
Proof.
  intros Hm. unfold round_finish, one_SF.
  destruct (Z.eqb_spec m 0) as [_|H0]; [discriminate|].
  destruct (Z.eqb_spec m 9007199254740992) as [->|_].
  - destruct (e + 1 <=? 971); [|discriminate].
    intros E. left. split; [reflexivity|]. injection E. lia.
  - destruct (e <=? 971); [|discriminate].
    intros E. right. injection E. intros -> Em. split; [|reflexivity].
    destruct m; cbn in Em; lia.
Qed.

Lemma pow2_split (a b c : Z) :
  0 <= a -> 0 <= b -> 0 <= c -> a + b = 53 + c ->
  2 ^ a * 2 ^ b = 9007199254740992 * 2 ^ c.
Proof.
  intros Ha Hb Hc E. rewrite <- Z.pow_add_r, E, Z.pow_add_r by lia.
  reflexivity.
Qed.

Lemma mul_cancel_lt (a b c : Z) : 0 < c -> a * c < b * c -> a < b.
Proof. intros Hc H. apply (Z.mul_lt_mono_pos_r c); assumption. Qed.

Lemma mul_cancel_le (a b c : Z) : 0 < c -> a * c <= b * c -> a <= b.
Proof. intros Hc H. apply (Z.mul_le_mono_pos_r _ _ c); assumption. Qed.

Lemma quotient_below (q mx my Ps Pk : Z) :
  0 < my -> 0 < Ps -> 0 < Pk ->
  q * my <= mx * Ps -> mx < my * Pk -> q < Ps * Pk.
Proof.
  intros Hmy HPs HPk H1 H2.
  apply (mul_cancel_lt _ _ (my * Pk)); [nia|].
  assert (A1 : q * my * Pk <= mx * Ps * Pk)
    by (apply Z.mul_le_mono_nonneg_r; lia).
  assert (A2 : mx * (Ps * Pk) < my * Pk * (Ps * Pk))
    by (apply Z.mul_lt_mono_pos_r; nia).
  lia.
Qed.

(** No tie or round-up to one from below: the quotient is at most
    [1 - 2^-53]. *)
Lemma no_round_up_to_one (mx my Ps Pk Pj : Z) :
  0 < my -> 0 < Ps -> 0 < Pk -> 0 < Pj ->
  Ps * Pk = 9007199254740992 * Pj ->
  9007199254740992 * mx <= 9007199254740991 * (my * Pk) ->
  (2 * 9007199254740991 + 1) * (my * Pj) <= 2 * (mx * Ps) ->
  False.
Proof.
  intros Hmy HPs HPk HPj Hpow Hplus Hup.
  assert (A1 : (2 * 9007199254740991 + 1) * (my * Pj) * Pk
               <= 2 * (mx * Ps) * Pk)
    by (apply Z.mul_le_mono_nonneg_r; lia).
  assert (A2 : 2 * (mx * Ps) * Pk = 2 * mx * 9007199254740992 * Pj).
  { rewrite <- !Z.mul_assoc, Hpow. ring. }
  rewrite A2 in A1.
  assert (A3 : (2 * 9007199254740991 + 1) * (my * Pk)
               <= 2 * mx * 9007199254740992).
  { apply (mul_cancel_le _ _ Pj HPj). lia. }
  assert (0 < my * Pk) by nia.
  lia.
Qed.

(** The quotient of a smaller positive number by a larger one is not
    rounded up to one. *)
Lemma SFdiv_below_one (mx : positive) (ex : Z) (my : positive)
    (ey : Z) :
  valid_binary (S754_finite false mx ex) = true ->
  valid_binary (S754_finite false my ey) = true ->
  ex <= ey ->
  Z.pos mx < Z.pos my * 2 ^ (ey - ex) ->
  (let '(mz, ez, lz) := SFdiv_core_binary prec emax (Z.pos mx) ex (Z.pos my) ey
   in binary_round_aux prec emax false mz ez lz) <> one_SF.
Proof.
  intros Hvx Hvy Hle Hlt.
  destruct (valid_finite_bounds _ _ _ Hvx) as (Hex & Hmx & Hnx).
  destruct (valid_finite_bounds _ _ _ Hvy) as (Hey & Hmy & Hny).
  destruct (valid_finite _ _ _ Hvx) as (_ & Hdx & Hdnx).
  destruct (valid_finite _ _ _ Hvy) as (_ & Hdy & Hdny).
  set (k := ey - ex) in *.
  assert (Hk : 0 <= k) by (unfold k; lia).
  assert (HPk : 0 < 2 ^ k) by (apply Z.pow_pos_nonneg; lia).
  (* the quotient is at most 1 - 2^-53 *)
  assert (Hplus : 9007199254740992 * Z.pos mx
                  <= 9007199254740991 * (Z.pos my * 2 ^ k)).
  { destruct (Z.eq_dec k 0) as [E|NE].
    - rewrite E in *. rewrite Z.pow_0_r in *. lia.
    - assert (HP2 : 2 <= 2 ^ k).
      { change 2 with (2 ^ 1) at 1. apply Z.pow_le_mono_r; lia. }
      specialize (Hny ltac:(lia)). nia. }
  assert (Hmu : Z.pos (digits2_pos mx) + ex <= Z.pos (digits2_pos my) + ey).
  { destruct (Z.eq_dec k 0) as [E|NE].
    - assert (Z.pos (digits2_pos mx) <= Z.pos (digits2_pos my)).
      { apply digits_le; [plia|].
        destruct (digits2_pos_bounds my) as [_ Hu].
        rewrite E, Z.pow_0_r in Hlt. plia. }
      unfold k in E. plia.
    - rewrite (Hdny ltac:(lia)). unfold k in NE. plia. }
  destruct (SFdiv_core_located mx ex my ey) as (q & e' & l & -> & Ee' & Hl0).
  rewrite fexp_eq in Ee'.
  assert (He' : e' <= -53) by plia.
  assert (Hs : 0 <= ex - ey - e') by plia.
  assert (HPs : 0 < 2 ^ (ex - ey - e')) by (apply Z.pow_pos_nonneg; lia).
  destruct (binary_round_aux_spec false q e' l _ _ Hl0)
    as (mrs & e1 & Ee1 & Hl1 & Hq & Hb & ->).
  rewrite fexp_eq in Ee1.
  assert (Hq0 : 0 <= q).
  { destruct Hl0 as (_ & H0 & _). rewrite shr_m_of_loc in H0. exact H0. }
  (* the quotient is below 2 ^ - e' *)
  assert (Hqlt : q < 2 ^ (- e')).
  { destruct Hl0 as (_ & _ & HF & _). rewrite shr_m_of_loc in HF.
    replace (- e') with ((ex - ey - e') + k) by (unfold k; lia).
    rewrite Z.pow_add_r by lia.
    apply (quotient_below q (Z.pos mx) (Z.pos my)); lia. }
  assert (Hdq : Zdigits2 q + e' <= 0).
  { assert (Zdigits2 q <= - e') by (apply Zdigits2_le; lia). lia. }
  assert (He1 : e' <= e1 <= -53) by lia.
  set (m1 := shr_m mrs) in *.
  assert (Hm1 : 0 <= m1) by (destruct Hl1 as (_ & H1 & _); exact H1).
  intros Hone.
  apply round_finish_one in Hone.
  2:{ destruct (round_nearest_even_located _ _ _ Hl1) as [[E _]|[E _]];
      fold m1 in E; rewrite E; lia. }
  destruct Hone as [[Em Ee]|[_ Ee]]; [|lia].
  destruct (round_nearest_even_located _ _ _ Hl1) as [[E _]|[E Hup]];
    fold m1 in E; rewrite E in Em; [lia|].
  fold m1 in Hup.
  assert (Em1 : m1 = 9007199254740991) by lia.
  rewrite Em1 in Hup.
  set (j := e1 - e') in *.
  assert (Hj : 0 <= j) by (unfold j; lia).
  assert (HPj : 0 < 2 ^ j) by (apply Z.pow_pos_nonneg; lia).
  pose proof (pow2_split (ex - ey - e') k j Hs Hk Hj
                ltac:(unfold k, j; lia)) as Hpow.
  apply (no_round_up_to_one (Z.pos mx) (Z.pos my) (2 ^ (ex - ey - e'))
                            (2 ^ k) (2 ^ j)); try assumption; lia.
Qed.

Lemma quotient_not_below (A my Pj c N D1 m1 : Z) :
  0 < Pj -> 0 < c ->
  N = A * c * Pj -> D1 = my * Pj ->
  N - m1 * D1 < D1 -> m1 + 1 = c -> A < my.
Proof.
  intros HPj Hc -> -> H E.
  apply (mul_cancel_lt _ _ (c * Pj)); [nia|].
  replace (my * (c * Pj)) with ((m1 + 1) * (my * Pj)) by (rewrite E; ring).
  lia.
Qed.

Lemma quotient_tie_bound (A my Pj N D1 : Z) :
  0 < Pj ->
  N = A * 4503599627370496 * Pj -> D1 = my * Pj ->
  2 * N <= (2 * 4503599627370496 + 1) * D1 ->
  9007199254740992 * A <= 9007199254740993 * my.
Proof.
  intros HPj -> -> H.
  apply (mul_cancel_le _ _ Pj HPj). lia.
Qed.

(** The quotient of a larger positive number by a smaller one is not
    rounded down to one. *)
Lemma SFdiv_above_one (mx : positive) (ex : Z) (my : positive) (ey : Z) :
  valid_binary (S754_finite false my ey) = true ->
  ey <= ex ->
  Z.pos my < Z.pos mx * 2 ^ (ex - ey) ->
  (let '(mz, ez, lz) := SFdiv_core_binary prec emax (Z.pos mx) ex (Z.pos my) ey
   in binary_round_aux prec emax false mz ez lz) <> one_SF.
Proof.
  intros Hvy Hle Hlt.
  destruct (valid_finite_bounds _ _ _ Hvy) as (Hey & Hmy & Hny).
  set (k := ex - ey) in *.
  assert (Hk : 0 <= k) by (unfold k; lia).
  assert (HPk : 0 < 2 ^ k) by (apply Z.pow_pos_nonneg; lia).
  destruct (SFdiv_core_located mx ex my ey) as (q & e' & l & -> & Ee' & Hl0).
  fold k in Ee', Hl0.
  assert (Hs : 0 <= k - e') by lia.
  destruct (binary_round_aux_spec false q e' l _ _ Hl0)
    as (mrs & e1 & Ee1 & Hl1 & Hq & Hb & ->).
  assert (Hj : 0 <= e1 - e') by lia.
  assert (HPj : 0 < 2 ^ (e1 - e')) by (apply Z.pow_pos_nonneg; lia).
  set (m1 := shr_m mrs) in *.
  assert (Hm1 : 0 <= m1) by (destruct Hl1 as (_ & H1 & _); exact H1).
  assert (HF : Z.pos mx * 2 ^ (k - e') - m1 * (Z.pos my * 2 ^ (e1 - e'))
               < Z.pos my * 2 ^ (e1 - e'))
    by (destruct Hl1 as (_ & _ & H1 & _); fold m1 in H1; lia).
  intros Hone.
  apply round_finish_one in Hone.
  2:{ destruct (round_nearest_even_located _ _ _ Hl1) as [[E _]|[E _]];
      fold m1 in E; rewrite E; lia. }
  destruct Hone as [[Em Ee]|[Em Ee]].
  - (* the result would be 2^53 * 2^-53 *)
    destruct (round_nearest_even_located _ _ _ Hl1) as [[E _]|[E _]];
      fold m1 in E; rewrite E in Em; [lia|].
    assert (HN : Z.pos mx * 2 ^ (k - e')
                 = Z.pos mx * 2 ^ k * 9007199254740992 * 2 ^ (e1 - e')).
    { replace (k - e') with (k + 53 + (e1 - e')) by lia.
      rewrite !Z.pow_add_r by lia. change (2 ^ 53) with 9007199254740992.
      ring. }
    pose proof (quotient_not_below (Z.pos mx * 2 ^ k) (Z.pos my)
                  (2 ^ (e1 - e')) 9007199254740992 _ _ m1 HPj ltac:(lia)
                  HN eq_refl HF Em).
    lia.
  - (* the result would be 2^52 * 2^-52 *)
    assert (HN : Z.pos mx * 2 ^ (k - e')
                 = Z.pos mx * 2 ^ k * 4503599627370496 * 2 ^ (e1 - e')).
    { replace (k - e') with (k + 52 + (e1 - e')) by lia.
      rewrite !Z.pow_add_r by lia. change (2 ^ 52) with 4503599627370496.
      ring. }
    destruct (round_nearest_even_located _ _ _ Hl1) as [[E Hdn]|[E _]];
      fold m1 in E; rewrite E in Em.
    + fold m1 in Hdn. rewrite Em in Hdn.
      pose proof (quotient_tie_bound (Z.pos mx * 2 ^ k) (Z.pos my)
                    (2 ^ (e1 - e')) _ _ HPj HN eq_refl Hdn).
      lia.
    + pose proof (quotient_not_below (Z.pos mx * 2 ^ k) (Z.pos my)
                    (2 ^ (e1 - e')) 4503599627370496 _ _ m1 HPj ltac:(lia)
                    HN eq_refl HF Em).
      lia.
Qed.

(** A quotient of two floats of which the first compares below the second
    is never one. *)
Lemma SFdiv_lt_not_one (x y : spec_float) :
  valid_binary x = true -> valid_binary y = true ->
  SFltb x y = true -> SFdiv prec emax x y <> one_SF.
Proof.
  intros Hvx Hvy.
  destruct x as [sx|sx| |sx mx ex]; destruct y as [sy|sy| |sy my ey];
    cbn [SFdiv]; try discriminate.
  destruct (valid_finite_bounds _ _ _ Hvx) as (Hex & Hmx & Hnx).
  destruct (valid_finite_bounds _ _ _ Hvy) as (Hey & Hmy & Hny).
  unfold SFltb, SFcompare.
  change (Pos.compare_cont Eq mx my) with (mx ?= my)%positive.
  destruct sx, sy; cbn [xorb].
  - (* both negative *)
    intros Hlt. apply SFdiv_above_one; [exact Hvy| |].
    + destruct (Z.compare_spec ex ey) as [E|E|E]; try discriminate; lia.
    + destruct (Z.compare_spec ex ey) as [E|E|E]; try discriminate.
      * subst ey. rewrite Z.sub_diag, Z.pow_0_r.
        destruct (Pos.compare_spec mx my) as [E'|E'|E']; try discriminate.
        lia.
      * assert (HP : 2 <= 2 ^ (ex - ey)).
        { change 2 with (2 ^ 1) at 1. apply Z.pow_le_mono_r; lia. }
        specialize (Hnx ltac:(lia)). nia.
  - (* a negative number over a positive one *)
    intros _ H.
    destruct (SFdiv_core_located mx ex my ey) as (q & e' & l & E & _ & Hl).
    rewrite E in H.
    assert (Hq : 0 <= q).
    { destruct Hl as (_ & H0 & _). rewrite shr_m_of_loc in H0. exact H0. }
    apply binary_round_aux_sign in H; [discriminate H|exact Hq].
  - discriminate.
  - (* both positive *)
    intros Hlt. apply SFdiv_below_one; [exact Hvx|exact Hvy| |].
    + destruct (Z.compare_spec ex ey) as [E|E|E]; try discriminate; lia.
    + destruct (Z.compare_spec ex ey) as [E|E|E]; try discriminate.
      * subst ey. rewrite Z.sub_diag, Z.pow_0_r.
        destruct (Pos.compare_spec mx my) as [E'|E'|E']; try discriminate.
        lia.
      * assert (HP : 2 <= 2 ^ (ey - ex)).
        { change 2 with (2 ^ 1) at 1. apply Z.pow_le_mono_r; lia. }
        specialize (Hny ltac:(lia)). nia.
Qed.

(** The quotient is NaN only for minus infinity over plus infinity, when
    the first operand compares below the second. *)
Lemma SFdiv_lt_not_nan (x y : spec_float) :
  SFltb x y = true ->
  ~ (x = S754_infinity true /\ y = S754_infinity false) ->
  SFdiv prec emax x y <> S754_nan.
Proof.
  destruct x as [sx|sx| |sx mx ex]; destruct y as [sy|sy| |sy my ey];
    cbn [SFdiv]; try discriminate.
  - destruct sx, sy; try discriminate. intros _ H _. apply H. split; reflexivity.
  - intros _ _ H.
    destruct (SFdiv_core_located mx ex my ey) as (q & e' & l & E & _ & Hl).
    rewrite E in H.
    assert (Hq : 0 <= q).
    { destruct Hl as (_ & H0 & _). rewrite shr_m_of_loc in H0. exact H0. }
    pose proof (binary_round_aux_signed (xorb sx sy) q e' l Hq) as Hs.
    rewrite H in Hs. exact Hs.
Qed.

Local Open Scope float_scope.

Lemma ltb_zero_positive (x : float) : (0 <? x) = SFpositive (Prim2SF x).
Proof.
  rewrite ltb_spec. change (Prim2SF 0) with (S754_zero false).
  destruct (Prim2SF x) as [s|s| |s m e]; try reflexivity;
    destruct s; reflexivity.
Qed.

Lemma eqb_zero_positive (x : float) :
  SFpositive (Prim2SF x) = true -> (x =? 0) = false.
Proof.
  rewrite eqb_spec. change (Prim2SF 0) with (S754_zero false).
  destruct (Prim2SF x) as [s|s| |s m e]; try discriminate;
    destruct s; try discriminate; reflexivity.
Qed.

Lemma mag_ge_positive (k : Z) (x : spec_float) :
  mag_ge false k x -> SFpositive x = true.
Proof.
  destruct x as [s|s| |s m e]; cbn [mag_ge]; try tauto.
  - intros ->. reflexivity.
  - intros [-> _]. reflexivity.
Qed.

Lemma Prim2SF_one : Prim2SF 1 = one_SF.
Proof. reflexivity. Qed.

Lemma Prim2SF_hundred : mag_ge false 7 (Prim2SF 100).
Proof. vm_compute. split; [reflexivity|discriminate]. Qed.

Lemma not_both_infinite (x t : float) :
  ~ (x = neg_infinity /\ t = infinity) ->
  ~ (Prim2SF x = S754_infinity true /\ Prim2SF t = S754_infinity false).
Proof.
  intros H [Hx Ht]. apply H. split; apply Prim2SF_inj.
  - rewrite Hx. reflexivity.
  - rewrite Ht. reflexivity.
Qed.

(** The squared deviation of a value below the threshold is above zero. *)
Lemma entry_positive (x t : float) :
  (x <? t) = true -> ~ (x = neg_infinity /\ t = infinity) ->
  (0 <? pow2 ((x / t - 1) * 100)) = true.
Proof.
  intros Hlt Hinf.
  rewrite ltb_zero_positive. unfold pow2.
  rewrite ltb_spec in Hlt.
  assert (Hq1 : Prim2SF (x / t) <> one_SF).
  { rewrite div_spec. apply SFdiv_lt_not_one; [apply Prim2SF_valid ..|exact Hlt]. }
  assert (Hq2 : Prim2SF (x / t) <> S754_nan).
  { rewrite div_spec.
    apply SFdiv_lt_not_nan; [exact Hlt|apply not_both_infinite, Hinf]. }
  destruct (SFsub_one_mag _ (Prim2SF_valid (x / t)) Hq2 Hq1) as [s Hz].
  rewrite <- Prim2SF_one, <- sub_spec in Hz.
  pose proof (SFmul_mag _ _ _ _ _ _ Hz Prim2SF_hundred ltac:(lia)) as Hy.
  rewrite <- mul_spec in Hy.
  pose proof (SFmul_mag _ _ _ _ _ _ Hy Hy ltac:(lia)) as Hsq.
  rewrite <- mul_spec, xorb_nilpotent in Hsq.
  apply (mag_ge_positive _ _ Hsq).
Qed.

(** ** Sums of positive floats *)

Lemma positive_signed (x : spec_float) :
  SFpositive x = true -> SFsigned false x.
Proof.
  destruct x as [s|s| |s m e]; try discriminate; destruct s;
    try discriminate; reflexivity.
Qed.

(** The sum of two positive floats is positive. *)
Lemma add_positive (x y : float) :
  (0 <? x) = true -> (0 <? y) = true -> (0 <? x + y) = true.
Proof.
  rewrite !ltb_zero_positive, add_spec. intros Hx Hy.
  apply SFadd_positive; try apply Prim2SF_valid;
    [exact Hx|apply positive_signed, Hy].
Qed.

Lemma zero_add_positive (x : float) : (0 <? x) = true -> (0 <? 0 + x) = true.
Proof.
  rewrite !ltb_zero_positive, add_spec. intros Hx.
  change (Prim2SF 0) with (S754_zero false). unfold SF64add.
  rewrite SFadd_zero_l; [exact Hx|apply positive_signed, Hx].
Qed.

Lemma fold_add_positive (l : list float) :
  forall acc : float,
    (0 <? acc) = true -> Forall (fun e => (0 <? e) = true) l ->
    (0 <? fold_left (fun a x => a + x) l acc) = true.
Proof.
  induction l as [|e l IH]; intros acc Hacc Hl.
  - exact Hacc.
  - cbn [fold_left]. inversion Hl as [|? ? He Hl']; subst.
    apply IH; [|exact Hl']. apply add_positive; assumption.
Qed.

(** The eight running sums stay positive, and so does their total. *)
Lemma sum8_positive (k : nat) :
  forall (a : list float) (r0 r1 r2 r3 r4 r5 r6 r7 : float),
    (length a <= k)%nat ->
    (0 <? r0) = true -> (0 <? r1) = true -> (0 <? r2) = true ->
    (0 <? r3) = true -> (0 <? r4) = true -> (0 <? r5) = true ->
    (0 <? r6) = true -> (0 <? r7) = true ->
    Forall (fun e => (0 <? e) = true) a ->
    (0 <? sum8 r0 r1 r2 r3 r4 r5 r6 r7 a) = true.
Proof.
  induction k as [|k IH]; intros a r0 r1 r2 r3 r4 r5 r6 r7 Hk
                                 H0 H1 H2 H3 H4 H5 H6 H7 Ha.
  - destruct a; [|cbn in Hk; lia]. cbn [sum8 fold_left].
    repeat apply add_positive; assumption.
  - destruct a as [|a0 [|a1 [|a2 [|a3 [|a4 [|a5 [|a6 [|a7 a']]]]]]]];
      cbn [sum8];
      try (apply fold_add_positive;
           [repeat apply add_positive; assumption|exact Ha]).
    repeat match goal with
           | H : Forall _ (_ :: _) |- _ =>
               let x := fresh "Hx" in
               let y := fresh "Hy" in
               apply Forall_cons_iff in H; destruct H as [x y]
           end.
    apply IH; try (apply add_positive; assumption); try assumption.
    cbn [length] in Hk. lia.
Qed.

Lemma block_sum_positive (a : list float) :
  a <> [] -> Forall (fun e => (0 <? e) = true) a ->
  (0 <? block_sum a) = true.
Proof.
  intros Hne Ha. unfold block_sum.
  destruct a as [|a0 a]; [congruence|].
  apply Forall_cons_iff in Ha. destruct Ha as [H0 Ha].
  assert (Hshort : (0 <? fold_left (fun acc x => acc + x) (a0 :: a) 0) = true).
  { cbn [fold_left]. apply fold_add_positive; [|exact Ha].
    apply zero_add_positive, H0. }
  destruct a as [|a1 [|a2 [|a3 [|a4 [|a5 [|a6 [|a7 a']]]]]]];
    try exact Hshort.
  repeat match goal with
         | H : Forall _ (_ :: _) |- _ =>
             let x := fresh "Hx" in
             let y := fresh "Hy" in
             apply Forall_cons_iff in H; destruct H as [x y]
         end.
  apply (sum8_positive (length a')); try assumption. lia.
Qed.

(** A list of more than 128 entries is cut in two parts that are not
    empty. *)
Lemma halves_nonempty (n : nat) :
  (128 < n)%nat ->
  (0 < n / 2 - (n / 2) mod 8 < n)%nat.
Proof.
  intros Hn.
  pose proof (Nat.div_mod_eq n 2) as E.
  pose proof (Nat.mod_upper_bound n 2 ltac:(lia)) as U.
  pose proof (Nat.mod_upper_bound (n / 2) 8 ltac:(lia)) as U8.
  lia.
Qed.

Lemma pairwise_sum_positive (fuel : nat) :
  forall a : list float,
    a <> [] -> Forall (fun e => (0 <? e) = true) a ->
    (0 <? pairwise_sum fuel a) = true.
Proof.
  induction fuel as [|fuel IH]; intros a Hne Ha; cbn [pairwise_sum].
  - destruct (length a <=? 128)%nat; apply block_sum_positive; assumption.
  - destruct (Nat.leb_spec (length a) 128) as [Hle|Hgt].
    + apply block_sum_positive; assumption.
    + pose proof (halves_nonempty _ Hgt) as Hn2.
      set (n2 := (length a / 2 - (length a / 2) mod 8)%nat) in *.
      rewrite <- (firstn_skipn n2 a) in Ha. apply Forall_app in Ha.
      destruct Ha as [Ha1 Ha2].
      apply add_positive; apply IH; try assumption.
      * intros E. apply (f_equal (@length float)) in E.
        rewrite length_firstn in E. cbn [length] in E. lia.
      * intros E. apply (f_equal (@length float)) in E.
        rewrite length_skipn in E. cbn [length] in E. lia.
Qed.

(** Any fuel that is at least the length of the list gives the same sum:
    the recursion never runs out of it. *)
Lemma pairwise_sum_fuel (f1 : nat) :
  forall (f2 : nat) (a : list float),
    (length a <= f1)%nat -> (length a <= f2)%nat ->
    pairwise_sum f1 a = pairwise_sum f2 a.
Proof.
  induction f1 as [|f1 IH]; intros f2 a H1 H2.
  - destruct a; [|cbn in H1; lia]. destruct f2; reflexivity.
  - destruct f2 as [|f2].
    + destruct a; [|cbn in H2; lia]. reflexivity.
    + cbn [pairwise_sum].
      destruct (Nat.leb_spec (length a) 128) as [Hle|Hgt]; [reflexivity|].
      pose proof (halves_nonempty _ Hgt) as Hn2.
      set (n2 := (length a / 2 - (length a / 2) mod 8)%nat) in *.
      rewrite (IH f2 (firstn n2 a)), (IH f2 (skipn n2 a));
        rewrite ?length_firstn, ?length_skipn; try lia.
      reflexivity.
Qed.

(** The sum of positive entries, one at least, is positive, and so is its
    square root. *)
Lemma sqrt_sum_positive (l : list float) :
  l <> [] -> Forall (fun e => (0 <? e) = true) l ->
  (0 <? np_sqrt (np_sum l)) = true.
Proof.
  intros Hne Hl.
  assert (H : (0 <? np_sum l) = true).
  { unfold np_sum. apply zero_add_positive, pairwise_sum_positive;
      assumption. }
  rewrite ltb_zero_positive in *.
  unfold np_sqrt. rewrite sqrt_spec.
  apply SFsqrt_positive; [apply Prim2SF_valid|exact H].
Qed.

End Rounding.

(** * Indexing lemmas *)

Lemma py_index_first {A : Type} (x : A) (l : list A) :
  py_index (x :: l) 0 = Ok x.
Proof. reflexivity. Qed.

Lemma py_index_nil {A : Type} (i : Z) :
  py_index (@nil A) i = Raise IndexError.
Proof.
  unfold py_index. simpl.
  destruct (i <? 0)%Z; destruct (_ <? 0)%Z; try reflexivity;
    destruct (Z.to_nat _); reflexivity.
Qed.

Lemma nth_error_pred_length {A : Type} (d : A) (l : list A) :
  l <> [] -> nth_error l (length l - 1) = Some (last l d).
Proof.
  induction l as [|x l IH]; intros H; [congruence|].
  destruct l as [|y l']; [reflexivity|].
  replace (length (x :: y :: l') - 1)%nat
    with (S (length (y :: l') - 1)) by (simpl; lia).
  change (nth_error (y :: l') (length (y :: l') - 1)
          = Some (last (y :: l') d)).
  apply IH. discriminate.
Qed.

Lemma py_index_last {A : Type} (d : A) (l : list A) :
  l <> [] -> py_index l (-1) = Ok (last l d).
Proof.
  intros H. unfold py_index.
  assert (Hlen : (1 <= length l)%nat)
    by (destruct l; [congruence | simpl; lia]).
  change (-1 <? 0)%Z with true. cbv iota.
  replace (-1 + Z.of_nat (length l) <? 0)%Z with false
    by (symmetry; apply Z.ltb_ge; lia).
  replace (Z.to_nat (-1 + Z.of_nat (length l))) with (length l - 1)%nat
    by lia.
  rewrite (nth_error_pred_length d l H). reflexivity.
Qed.

(** * The portfolio return *)

Lemma portfolio_return_nonempty (self : Portfolio) (v : float) (vs : Series) :
  portf_value self = Some (PySeries (v :: vs)) ->
  _portfolio_return self
  = (Ok tt, set_portf_return ((last (v :: vs) 0 / v - 1) * 100) self).
Proof.
  intros Hv. unfold _portfolio_return, bind, getattr, lift, setattr.
  rewrite Hv. cbv beta iota. unfold subscript.
  rewrite (py_index_last 0 (v :: vs)) by discriminate.
  cbv beta iota. rewrite Hv. reflexivity.
Qed.

Lemma portfolio_return_empty (self : Portfolio) :
  portf_value self = Some (PySeries []) ->
  _portfolio_return self = (Raise IndexError, self).
Proof.
  intros Hv. unfold _portfolio_return, bind, getattr, lift, setattr.
  rewrite Hv. reflexivity.
Qed.

(** C5, as the specification states it, fails in one place: the
    computation is not free of side effects, it returns nothing and assigns
    the attribute [portf_return] of the object. *)
Lemma portfolio_return_writes_attribute :
  (portf_return (with_value 5 [100; 110; 90; 120]) = None
   /\ portf_return (snd (_portfolio_return (with_value 5 [100; 110; 90; 120])))
      = Some 19.999999999999996)
  /\ ~ (forall (self : Portfolio) (vs : Series),
           portf_value self = Some (PySeries vs) ->
           (2 <= length vs)%nat ->
           (hd 0 vs =? 0) = false ->
           snd (_portfolio_return self) = self).
Proof.
  split.
  - split; vm_compute; reflexivity.
  - intros H.
    assert (H1 := H (with_value 5 [100; 110; 90; 120]) [100; 110; 90; 120]
                    eq_refl (le_S 2 3 (le_S 2 2 (le_n 2))) eq_refl).
    apply (f_equal portf_return) in H1. vm_compute in H1. discriminate H1.
Qed.

(** C5, amended: for a value series with at least two points and a nonzero
    first value, [_portfolio_return] stores
    [(value[last] / value[first] - 1) * 100] in [portf_return]; the stored
    number is determined by the value series alone, and this assignment is
    the only effect: no exception is raised and no other attribute
    changes. *)
Theorem portfolio_return_spec (self : Portfolio) (vs : Series) :
  portf_value self = Some (PySeries vs) ->
  (2 <= length vs)%nat ->
  (hd 0 vs =? 0) = false ->
  _portfolio_return self
  = (Ok tt, set_portf_return ((last vs 0 / hd 0 vs - 1) * 100) self)
  /\ forall other : Portfolio,
       portf_value other = Some (PySeries vs) ->
       portf_return (snd (_portfolio_return other))
       = portf_return (snd (_portfolio_return self)).
Proof.
  intros Hv Hlen _.
  destruct vs as [|v vs]; [simpl in Hlen; lia|].
  split.
  - now apply portfolio_return_nonempty.
  - intros other Ho.
    rewrite (portfolio_return_nonempty self v vs Hv).
    rewrite (portfolio_return_nonempty other v vs Ho).
    reflexivity.
Qed.

Lemma portfolio_return_spec_witness :
  _portfolio_return (with_value 5 [100; 110; 90; 120])
  = (Ok tt,
     set_portf_return ((120 / 100 - 1) * 100)
                      (with_value 5 [100; 110; 90; 120])).
Proof.
  apply (portfolio_return_spec (with_value 5 [100; 110; 90; 120])
                               [100; 110; 90; 120]).
  - reflexivity.
  - simpl; lia.
  - reflexivity.
Defined.

(** C7, as the specification states it, fails: on a one-point series the
    method raises nothing and stores a return. *)
Lemma portfolio_return_one_point_no_error :
  ~ (forall (self : Portfolio) (vs : Series),
        portf_value self = Some (PySeries vs) ->
        (length vs < 2)%nat ->
        fst (_portfolio_return self) = Raise InsufficientDataError).
Proof.
  intros H.
  specialize (H (with_value 5 [100]) [100] eq_refl (Nat.lt_succ_diag_r 1)).
  vm_compute in H. discriminate H.
Qed.

(** C7, amended: on a series with fewer than two points the method either
    raises [IndexError] and leaves the object as it was (no point), or
    raises nothing and stores [(v / v - 1) * 100] (one point [v]). *)
Theorem portfolio_return_short_series (self : Portfolio) (vs : Series) :
  portf_value self = Some (PySeries vs) ->
  (length vs < 2)%nat ->
  match vs with
  | [] => _portfolio_return self = (Raise IndexError, self)
  | v :: _ =>
      _portfolio_return self
      = (Ok tt, set_portf_return ((v / v - 1) * 100) self)
  end.
Proof.
  intros Hv Hlen.
  destruct vs as [|v [|w vs]].
  - now apply portfolio_return_empty.
  - now rewrite (portfolio_return_nonempty self v [] Hv).
  - simpl in Hlen. lia.
Qed.

Lemma portfolio_return_short_series_witness :
  _portfolio_return (with_value 5 [100])
  = (Ok tt, set_portf_return 0 (with_value 5 [100])).
Proof.
  apply (portfolio_return_short_series (with_value 5 [100]) [100]).
  - reflexivity.
  - simpl; lia.
Defined.

(** * Negative excess returns *)

Lemma set_ner_same (self : Portfolio) (l : list float) :
  ner self = Some l -> set_ner l self = self.
Proof. destruct self; simpl; intros ->; reflexivity. Qed.

Lemma ner_body_step (first : float) (rest : Series) (i : float)
    (self : Portfolio) (l : list float) :
  portf_value self = Some (PySeries (first :: rest)) ->
  ner self = Some l ->
  ner_body i self
  = (Ok tt,
     if i <? first + risk_free_rate self
     then set_ner (l ++ [pow2 ((i / (first + risk_free_rate self) - 1) * 100)])
                  self
     else self).
Proof.
  intros Hv Hn.
  unfold ner_body, bind, getattr, lift, getfield, setattr, ret.
  rewrite Hv. cbn [subscript]. rewrite py_index_first. cbv beta iota.
  destruct (i <? first + risk_free_rate self); [|reflexivity].
  rewrite Hv. cbn [subscript]. rewrite py_index_first. cbv beta iota.
  rewrite Hn. reflexivity.
Qed.

(** The loop appends to [ner] the entries of the items it is run on, in
    order, and touches nothing else. *)
Lemma ner_loop (first : float) (rest : Series) (items : list float) :
  forall (self : Portfolio) (l : list float),
    portf_value self = Some (PySeries (first :: rest)) ->
    ner self = Some l ->
    for_each items ner_body self
    = (Ok tt,
       set_ner (l ++ map (fun v =>
                            pow2 ((v / (first + risk_free_rate self) - 1) * 100))
                         (filter (fun v => v <? first + risk_free_rate self)
                                 items))
               self).
Proof.
  induction items as [|i items IH]; intros self l Hv Hn.
  - simpl. rewrite app_nil_r, (set_ner_same self l Hn). reflexivity.
  - cbn [for_each filter]. unfold bind.
    rewrite (ner_body_step first rest i self l Hv Hn).
    destruct (i <? first + risk_free_rate self) eqn:Hlt.
    + rewrite (IH (set_ner (l ++ [pow2 ((i / (first + risk_free_rate self)
                                          - 1) * 100)]) self)
                  (l ++ [pow2 ((i / (first + risk_free_rate self) - 1) * 100)]))
        by (destruct self; assumption || reflexivity).
      cbn [map]. rewrite <- app_assoc. destruct self; reflexivity.
    + apply (IH self l Hv Hn).
Qed.

(** The whole method: [ner] is reset and then filled by the loop. *)
Lemma negative_excess_returns_run (self : Portfolio) (vs : Series) :
  portf_value self = Some (PySeries vs) ->
  _negative_excess_returns self
  = (Ok tt,
     set_ner (map (fun v => pow2 ((v / (hd 0 vs + risk_free_rate self) - 1)
                                  * 100))
                  (filter (fun v => v <? hd 0 vs + risk_free_rate self) vs))
             self).
Proof.
  intros Hv.
  unfold _negative_excess_returns, bind at 1, setattr.
  unfold bind at 1, getattr.
  replace (portf_value (set_ner [] self)) with (Some (PySeries vs))
    by (destruct self; symmetry; exact Hv).
  unfold bind, lift, py_iter.
  destruct vs as [|first rest].
  - reflexivity.
  - rewrite (ner_loop first rest (first :: rest) (set_ner [] self) [])
      by (destruct self; assumption || reflexivity).
    destruct self; reflexivity.
Qed.

(** C4: for every value series and risk-free rate, [_negative_excess_returns]
    leaves in [ner] exactly one entry
    [((v / (value[first] + risk_free_rate) - 1) * 100) ** 2] for each value
    [v] with [v < value[first] + risk_free_rate], in series order, and no
    other entry; the threshold is the sum [value[first] + risk_free_rate]. *)
Theorem negative_excess_returns_spec (self : Portfolio) (vs : Series) :
  portf_value self = Some (PySeries vs) ->
  _negative_excess_returns self
  = (Ok tt,
     set_ner (NegativeExcessReturnSet_spec vs (risk_free_rate self)) self).
Proof.
  intros Hv.
  rewrite (negative_excess_returns_run self vs Hv).
  unfold NegativeExcessReturnSet_spec.
  reflexivity.
Qed.

Lemma negative_excess_returns_spec_witness :
  _negative_excess_returns (with_value 5 [100; 110; 90; 120])
  = (Ok tt,
     set_ner [pow2 ((100 / (100 + 5) - 1) * 100);
              pow2 ((90 / (100 + 5) - 1) * 100)]
             (with_value 5 [100; 110; 90; 120])).
Proof.
  apply (negative_excess_returns_spec (with_value 5 [100; 110; 90; 120])
                                      [100; 110; 90; 120]).
  reflexivity.
Defined.

(** * The Sortino ratio *)

Lemma sortino_ratio_run (self : Portfolio) (l : list float) (r : float) :
  ner self = Some l ->
  portf_return self = Some r ->
  sortino_ratio self
  = (Ok ((r - risk_free_rate self) / np_sqrt (np_sum l)),
     set_dwn_dev (np_sqrt (np_sum l)) self).
Proof.
  intros Hn Hr. unfold sortino_ratio, bind, getattr, setattr, getfield, ret.
  rewrite Hn. cbv beta iota.
  replace (portf_return (set_dwn_dev (np_sqrt (np_sum l)) self))
    with (Some r) by (destruct self; symmetry; exact Hr).
  destruct self; reflexivity.
Qed.

(** C1, as the specification states it, fails: with an empty [ner] the
    method raises nothing and returns infinity. *)
Lemma sortino_empty_ner_returns_infinity :
  (ner (snd (new_Portfolio rising ["A"] 0)) = Some []
   /\ fst (sortino_ratio (snd (new_Portfolio rising ["A"] 0))) = Ok infinity)
  /\ ~ (forall (history : string -> Series) (assets : list string)
               (rfr : float) (self : Portfolio),
           new_Portfolio history assets rfr = (Ok tt, self) ->
           ner self = Some [] ->
           fst (sortino_ratio self) = Raise UndefinedRatioError).
Proof.
  split.
  - split; vm_compute; reflexivity.
  - intros H.
    specialize (H rising ["A"] 0 (snd (new_Portfolio rising ["A"] 0))
                  eq_refl eq_refl).
    vm_compute in H. discriminate H.
Qed.

(** C1, amended: with an empty [ner] the method raises nothing; it stores a
    downside deviation of 0 and returns [(portf_return - risk_free_rate) / 0.0],
    which is an infinity or NaN and never a finite number. *)
Theorem sortino_ratio_empty_ner (self : Portfolio) (r : float) :
  ner self = Some [] ->
  portf_return self = Some r ->
  sortino_ratio self
  = (Ok ((r - risk_free_rate self) / 0), set_dwn_dev 0 self)
  /\ is_finite ((r - risk_free_rate self) / 0) = false.
Proof.
  intros Hn Hr. split.
  - rewrite (sortino_ratio_run self [] r Hn Hr). reflexivity.
  - apply FloatFacts.div_zero_not_finite. reflexivity.
Qed.

Lemma sortino_ratio_empty_ner_witness :
  sortino_ratio (snd (new_Portfolio rising ["A"] 0))
  = (Ok infinity, set_dwn_dev 0 (snd (new_Portfolio rising ["A"] 0)))
  /\ is_finite infinity = false.
Proof.
  apply (sortino_ratio_empty_ner (snd (new_Portfolio rising ["A"] 0))
                                 ((120 / 100 - 1) * 100)).
  - reflexivity.
  - reflexivity.
Defined.

(** ** Scenario A of the specification *)

(** C3, as the specification states it, fails in one place: the stored
    return is the binary64 value of [(120 / 100 - 1) * 100], which is not
    20. *)
Lemma scenario_A_return_not_20 :
  ~ (portf_return portfolio_A = Some 20).
Proof.
  intros H.
  apply (f_equal (fun o => match o with
                           | Some x => x =? 20
                           | None => false
                           end)) in H.
  vm_compute in H. discriminate H.
Qed.

(** C3, amended: construction succeeds and the value series is
    [[100, 110, 90, 120]]; the return is the binary64 value of
    [(120 / 100 - 1) * 100], that is 19.999999999999996, within 1e-14 of 20;
    [ner] holds exactly the two entries [((100 / 105 - 1) * 100) ** 2] and
    [((90 / 105 - 1) * 100) ** 2], within 0.01 of 22.67 and 204.08; the
    downside deviation is the square root of their sum, within 0.01 of
    15.06; and the Sortino ratio is [(return - 5) / downside deviation],
    within 0.001 of 0.996. *)
Theorem scenario_A_metrics :
  fst (new_Portfolio scenario_A ["A"; "B"] 5) = Ok tt
  /\ portf_value portfolio_A = Some (PySeries [100; 110; 90; 120])
  /\ portf_return portfolio_A = Some ((120 / 100 - 1) * 100)
  /\ (120 / 100 - 1) * 100 = 19.999999999999996
  /\ (abs ((120 / 100 - 1) * 100 - 20) <? 1e-14) = true
  /\ ner portfolio_A = Some [pow2 ((100 / 105 - 1) * 100);
                             pow2 ((90 / 105 - 1) * 100)]
  /\ (abs (pow2 ((100 / 105 - 1) * 100) - 22.67) <? 0.01) = true
  /\ (abs (pow2 ((90 / 105 - 1) * 100) - 204.08) <? 0.01) = true
  /\ dwn_dev (snd (sortino_ratio portfolio_A))
     = Some (sqrt (pow2 ((100 / 105 - 1) * 100)
                   + pow2 ((90 / 105 - 1) * 100)))
  /\ (abs (sqrt (pow2 ((100 / 105 - 1) * 100)
                 + pow2 ((90 / 105 - 1) * 100)) - 15.06) <? 0.01) = true
  /\ fst (sortino_ratio portfolio_A)
     = Ok (((120 / 100 - 1) * 100 - 5)
           / sqrt (pow2 ((100 / 105 - 1) * 100)
                   + pow2 ((90 / 105 - 1) * 100)))
  /\ (abs (((120 / 100 - 1) * 100 - 5)
           / sqrt (pow2 ((100 / 105 - 1) * 100)
                   + pow2 ((90 / 105 - 1) * 100)) - 0.996) <? 0.001) = true.
Proof.
  repeat split; vm_compute; reflexivity.
Qed.

(** ** A positive risk-free rate and the first value *)

(** Minus infinity plus anything is minus infinity or NaN. *)
Lemma neg_infinity_add_not_infinity (y : float) :
  neg_infinity + y <> infinity.
Proof.
  intros H. apply (f_equal Prim2SF) in H. rewrite add_spec in H.
  change (Prim2SF neg_infinity) with (S754_infinity true) in H.
  change (Prim2SF infinity) with (S754_infinity false) in H.
  unfold SF64add in H.
  destruct (Prim2SF y) as [s|s| |s m e]; cbn [SFadd] in H;
    try discriminate H; destruct s; discriminate H.
Qed.

(** C10, as stated, fails: a positive rate can be absorbed by the rounding
    of [value[first] + risk_free_rate], and then the first value is not
    below the threshold, [ner] is empty and the denominator is 0.  The
    comparison [value[first] < value[first] + risk_free_rate] alone does not
    make the downside deviation positive either: when the threshold
    overflows to plus infinity, a value of minus infinity is below it and
    contributes [-inf / inf], a NaN, to the sum. *)
Lemma positive_rate_claim_fails :
  ((0 <? 1e-15) = true
   /\ (100 <? 100 + 1e-15) = false
   /\ ner (snd (new_Portfolio rising ["A"] 1e-15)) = Some []
   /\ dwn_dev (snd (sortino_ratio (snd (new_Portfolio rising ["A"] 1e-15))))
      = Some 0)
  /\ ~ (forall (history : string -> Series) (assets : list string)
               (rfr : float) (self : Portfolio)
               (first : float) (rest : Series),
           new_Portfolio history assets rfr = (Ok tt, self) ->
           portf_value self = Some (PySeries (first :: rest)) ->
           (0 <? rfr) = true ->
           (first <? first + rfr) = true
           /\ (exists e l, ner self = Some (e :: l) /\ (0 <? e) = true)
           /\ (exists d, dwn_dev (snd (sortino_ratio self)) = Some d
                         /\ (0 <? d) = true))
  /\ ((1e308 <? 1e308 + 1e308) = true
      /\ 1e308 + 1e308 = infinity
      /\ portf_value (snd (new_Portfolio overflowing ["A"] 1e308))
         = Some (PySeries [1e308; neg_infinity])
      /\ ner (snd (new_Portfolio overflowing ["A"] 1e308))
         = Some [10000; nan]
      /\ dwn_dev (snd (sortino_ratio
                         (snd (new_Portfolio overflowing ["A"] 1e308))))
         = Some nan)
  /\ ~ (forall (history : string -> Series) (assets : list string)
               (rfr : float) (self : Portfolio)
               (first : float) (rest : Series),
           new_Portfolio history assets rfr = (Ok tt, self) ->
           portf_value self = Some (PySeries (first :: rest)) ->
           (first <? first + rfr) = true ->
           exists d, dwn_dev (snd (sortino_ratio self)) = Some d
                     /\ (0 <? d) = true).
Proof.
  split; [|split; [|split]].
  - repeat split; vm_compute; reflexivity.
  - intros H.
    specialize (H rising ["A"] 1e-15
                  (snd (new_Portfolio rising ["A"] 1e-15))
                  100 [110; 120] eq_refl eq_refl eq_refl).
    destruct H as [H _]. vm_compute in H. discriminate H.
  - repeat split; vm_compute; reflexivity.
  - intros H.
    specialize (H overflowing ["A"] 1e308
                  (snd (new_Portfolio overflowing ["A"] 1e308))
                  1e308 [neg_infinity] eq_refl eq_refl eq_refl).
    destruct H as (d & Hd & Hpos).
    apply (f_equal (fun o => match o with
                             | Some x => 0 <? x
                             | None => false
                             end)) in Hd.
    rewrite Hpos in Hd. vm_compute in Hd. discriminate Hd.
Qed.

(** C10, amended: whenever [value[first] < value[first] + risk_free_rate]
    holds in binary64, and no later value is minus infinity in case that sum
    is plus infinity, the first value is below the threshold, so [ner] is
    not empty and starts with the squared deviation of [value[first]], which
    is strictly positive; the downside deviation that [sortino_ratio]
    stores is strictly positive, and the denominator of its division is not
    zero. *)
Theorem first_value_keeps_denominator_positive (self : Portfolio)
    (first : float) (rest : Series) (r : float) :
  portf_value self = Some (PySeries (first :: rest)) ->
  portf_return self = Some r ->
  (first <? first + risk_free_rate self) = true ->
  (first + risk_free_rate self = infinity -> ~ In neg_infinity rest) ->
  exists (e : float) (l : list float) (d : float),
    _negative_excess_returns self = (Ok tt, set_ner (e :: l) self)
    /\ e = pow2 ((first / (first + risk_free_rate self) - 1) * 100)
    /\ (0 <? e) = true
    /\ sortino_ratio (set_ner (e :: l) self)
       = (Ok ((r - risk_free_rate self) / d),
          set_dwn_dev d (set_ner (e :: l) self))
    /\ (0 <? d) = true
    /\ (d =? 0) = false.
Proof.
  intros Hv Hr Hlt Hinf.
  set (t := first + risk_free_rate self) in *.
  set (f := fun v => pow2 ((v / t - 1) * 100)).
  set (l := map f (filter (fun v => v <? t) rest)).
  exists (f first), l, (np_sqrt (np_sum (f first :: l))).
  assert (Hfirst : ~ (first = neg_infinity /\ t = infinity)).
  { intros [E1 E2]. unfold t in E2. rewrite E1 in E2.
    exact (neg_infinity_add_not_infinity _ E2). }
  assert (He : (0 <? f first) = true)
    by (apply Rounding.entry_positive; assumption).
  assert (Hl : Forall (fun e => (0 <? e) = true) (f first :: l)).
  { constructor; [exact He|].
    apply Forall_map, Forall_forall. intros v Hin.
    apply filter_In in Hin. destruct Hin as [Hin Hvt].
    apply Rounding.entry_positive; [exact Hvt|].
    intros [E1 E2]. apply (Hinf E2). rewrite <- E1. exact Hin. }
  pose proof (Rounding.sqrt_sum_positive (f first :: l) ltac:(discriminate) Hl)
    as Hd.
  split.
  { rewrite (negative_excess_returns_run self (first :: rest) Hv).
    cbn [hd filter]. fold t. rewrite Hlt. reflexivity. }
  split; [reflexivity|]. split; [exact He|]. split.
  { rewrite (sortino_ratio_run _ (f first :: l) r)
      by (destruct self; assumption || reflexivity).
    destruct self; reflexivity. }
  split; [exact Hd|].
  apply Rounding.eqb_zero_positive. rewrite <- Rounding.ltb_zero_positive.
  exact Hd.
Qed.

Lemma first_value_keeps_denominator_positive_witness :
  exists (e : float) (l : list float) (d : float),
    _negative_excess_returns portfolio_A = (Ok tt, set_ner (e :: l) portfolio_A)
    /\ e = pow2 ((100 / (100 + 5) - 1) * 100)
    /\ (0 <? e) = true
    /\ sortino_ratio (set_ner (e :: l) portfolio_A)
       = (Ok (((120 / 100 - 1) * 100 - 5) / d),
          set_dwn_dev d (set_ner (e :: l) portfolio_A))
    /\ (0 <? d) = true
    /\ (d =? 0) = false.
Proof.
  apply (first_value_keeps_denominator_positive
           portfolio_A 100 [110; 90; 120] ((120 / 100 - 1) * 100)).
  - reflexivity.
  - reflexivity.
  - reflexivity.
  - intros H. exfalso. apply (f_equal Prim2SF) in H.
    vm_compute in H. discriminate H.
Defined.

(** * Portfolio beta *)

Lemma set_portf_beta_same (self : Portfolio) (b : float) :
  portf_beta self = Some b -> set_portf_beta b self = self.
Proof. destruct self; simpl; intros ->; reflexivity. Qed.

Lemma beta_body_step (br : float) (i : Series) (self : Portfolio)
    (v0 : float) (vs : Series) (d : list Series) (b : float) :
  portf_value self = Some (PySeries (v0 :: vs)) ->
  portf_data self = Some d ->
  portf_beta self = Some b ->
  beta_body br i self
  = match beta_term br (risk_free_rate self) v0 (length d) i with
    | Ok t => (Ok tt, set_portf_beta (b + t) self)
    | Raise e => (Raise e, self)
    end.
Proof.
  intros Hv Hd Hb.
  unfold beta_body, beta_term, bind, lift, getattr, getfield, setattr.
  destruct (_asset_return i) as [ar|e]; [|reflexivity].
  cbn [res_bind].
  destruct (py_index i 0) as [i0|e]; [|reflexivity].
  cbn [res_bind]. rewrite Hv. cbn [subscript]. rewrite py_index_first.
  cbv beta iota. rewrite Hb, Hd. reflexivity.
Qed.

Lemma beta_loop (br v0 : float) (vs : Series) (d data : list Series) :
  forall (self : Portfolio) (b : float),
    portf_value self = Some (PySeries (v0 :: vs)) ->
    portf_data self = Some d ->
    portf_beta self = Some b ->
    for_each data (beta_body br) self
    = (fst (beta_acc br (risk_free_rate self) v0 (length d) data b),
       set_portf_beta
         (snd (beta_acc br (risk_free_rate self) v0 (length d) data b)) self).
Proof.
  induction data as [|i data IH]; intros self b Hv Hd Hb.
  - simpl. rewrite (set_portf_beta_same self b Hb). reflexivity.
  - cbn [for_each beta_acc]. unfold bind.
    rewrite (beta_body_step br i self v0 vs d b Hv Hd Hb).
    destruct (beta_term br (risk_free_rate self) v0 (length d) i) as [t|e].
    + rewrite (IH (set_portf_beta (b + t) self) (b + t))
        by (destruct self; assumption || reflexivity).
      destruct self; reflexivity.
    + simpl. rewrite (set_portf_beta_same self b Hb). reflexivity.
Qed.

(** [portfolio_beta] on an object whose value series is not empty. *)
Lemma portfolio_beta_run (bench : Series) (self : Portfolio)
    (v0 : float) (vs : Series) (d : list Series) :
  portf_value self = Some (PySeries (v0 :: vs)) ->
  portf_data self = Some d ->
  portfolio_beta bench self
  = match _bench_return bench with
    | Raise e => (Raise e, self)
    | Ok br =>
        let r := beta_acc br (risk_free_rate self) v0 (length d) d 0 in
        (match fst r with Ok _ => Ok (snd r) | Raise e => Raise e end,
         set_portf_beta (snd r) self)
    end.
Proof.
  intros Hv Hd. unfold portfolio_beta, bind at 1, lift.
  destruct (_bench_return bench) as [br|e]; [|reflexivity].
  unfold bind at 1, setattr. unfold bind at 1, getattr at 1.
  replace (portf_data (set_portf_beta 0 self)) with (Some d)
    by (destruct self; symmetry; exact Hd).
  unfold bind.
  rewrite (beta_loop br v0 vs d d (set_portf_beta 0 self) 0)
    by (destruct self; assumption || reflexivity).
  replace (risk_free_rate (set_portf_beta 0 self)) with (risk_free_rate self)
    by (destruct self; reflexivity).
  cbv zeta.
  destruct (beta_acc br (risk_free_rate self) v0 (length d) d 0) as [[[]|e] b];
    destruct self; reflexivity.
Qed.

Lemma asset_return_nonempty (x : float) (l : Series) :
  _asset_return (x :: l) = Ok ((x / last (x :: l) 0 - 1) * 100).
Proof.
  unfold _asset_return. rewrite py_index_first. cbn [res_bind].
  rewrite (py_index_last 0 (x :: l)) by discriminate. reflexivity.
Qed.

(** C2: in [portfolio_beta] the benchmark return and every asset return are
    computed as [(price[first] / price[last] - 1) * 100], position 0 over
    position -1, which is the reverse of the convention of
    [_portfolio_return]: on the prices [[100, 200]] the beta computation
    finds a return of -50 where the portfolio return is 100. *)
Theorem beta_returns_first_over_last :
  (forall (x : float) (l : Series),
      _bench_return (x :: l) = Ok ((x / last (x :: l) 0 - 1) * 100)
      /\ _asset_return (x :: l) = Ok ((x / last (x :: l) 0 - 1) * 100))
  /\ _bench_return [100; 200] = Ok (-50)
  /\ _asset_return [100; 200] = Ok (-50)
  /\ portf_return (snd (_portfolio_return (with_value 0 [100; 200])))
     = Some 100.
Proof.
  split; [|repeat split; vm_compute; reflexivity].
  intros x l. split; [|apply asset_return_nonempty].
  exact (asset_return_nonempty x l).
Qed.

(** ** A benchmark return equal to the risk-free rate *)






(** * Repeated calls of the metric methods *)

Lemma call_again_idempotent {A : Type} (m : M A) (k : nat) :
  forall self : Portfolio,
    m (snd (m self)) = m self -> call_again m k self = m self.
Proof.
  induction k as [|k IH]; intros self H; [reflexivity|].
  cbn [call_again]. rewrite IH; [exact H|].
  rewrite H. exact H.
Qed.

Lemma sortino_ratio_idempotent (self : Portfolio) (l : list float)
    (r : float) :
  ner self = Some l ->
  portf_return self = Some r ->
  sortino_ratio (snd (sortino_ratio self)) = sortino_ratio self.
Proof.
  intros Hn Hr. rewrite (sortino_ratio_run self l r Hn Hr). cbn [snd].
  rewrite (sortino_ratio_run (set_dwn_dev (np_sqrt (np_sum l)) self) l r)
    by (destruct self; assumption).
  destruct self; reflexivity.
Qed.

Lemma portfolio_beta_idempotent (bench : Series) (self : Portfolio)
    (v0 : float) (vs : Series) (d : list Series) :
  portf_value self = Some (PySeries (v0 :: vs)) ->
  portf_data self = Some d ->
  portfolio_beta bench (snd (portfolio_beta bench self))
  = portfolio_beta bench self.
Proof.
  intros Hv Hd. rewrite (portfolio_beta_run bench self v0 vs d Hv Hd).
  destruct (_bench_return bench) as [br|e] eqn:Hb.
  - cbv zeta. cbn [snd].
    rewrite (portfolio_beta_run bench (set_portf_beta _ self) v0 vs d)
      by (destruct self; assumption).
    rewrite Hb. destruct self; reflexivity.
  - cbn [snd]. rewrite (portfolio_beta_run bench self v0 vs d Hv Hd), Hb.
    reflexivity.
Qed.

(** C8, as the specification states it, fails: the first call of either
    method creates an attribute of the object ([dwn_dev], [portf_beta]),
    and nothing of the benchmark download is kept. *)
Lemma metric_calls_write_attributes :
  (dwn_dev portfolio_A = None
   /\ dwn_dev (snd (sortino_ratio portfolio_A)) = Some 15.05846504842086
   /\ portf_beta portfolio_A = None
   /\ portf_beta (snd (portfolio_beta [100; 120] portfolio_A)) = Some 1)
  /\ ~ (forall (history : string -> Series) (assets : list string)
               (rfr : float) (self : Portfolio) (bench : Series),
           new_Portfolio history assets rfr = (Ok tt, self) ->
           snd (sortino_ratio self) = self
           /\ snd (portfolio_beta bench self) = self).
Proof.
  split.
  - repeat split; vm_compute; reflexivity.
  - intros H.
    destruct (H scenario_A ["A"; "B"] 5 portfolio_A [100; 120] eq_refl)
      as [H1 _].
    apply (f_equal dwn_dev) in H1. vm_compute in H1. discriminate H1.
Qed.

(** C8, amended: on a constructed portfolio, [sortino_ratio] changes no
    attribute except [dwn_dev], which it assigns, and [portfolio_beta]
    changes no attribute except [portf_beta], which it assigns unless the
    benchmark lookup fails; the benchmark download is not cached.  Calling
    either method any number of times, with the same benchmark data,
    returns the same result and leaves the same object as one call, and
    neither method changes the result of the other. *)
Theorem metric_calls_frame_and_repeat (self : Portfolio) (bench : Series)
    (v0 : float) (vs : Series) (d : list Series) (l : list float)
    (r : float) :
  portf_value self = Some (PySeries (v0 :: vs)) ->
  portf_data self = Some d ->
  ner self = Some l ->
  portf_return self = Some r ->
  (exists dd : float, snd (sortino_ratio self) = set_dwn_dev dd self)
  /\ (snd (portfolio_beta bench self) = self
      \/ exists b : float,
           snd (portfolio_beta bench self) = set_portf_beta b self)
  /\ (forall k : nat, call_again sortino_ratio k self = sortino_ratio self)
  /\ (forall k : nat,
         call_again (portfolio_beta bench) k self = portfolio_beta bench self)
  /\ fst (sortino_ratio (snd (portfolio_beta bench self)))
     = fst (sortino_ratio self)
  /\ fst (portfolio_beta bench (snd (sortino_ratio self)))
     = fst (portfolio_beta bench self).
Proof.
  intros Hv Hd Hn Hr. repeat split.
  - rewrite (sortino_ratio_run self l r Hn Hr). eexists. reflexivity.
  - rewrite (portfolio_beta_run bench self v0 vs d Hv Hd).
    destruct (_bench_return bench); [right | left; reflexivity].
    eexists. reflexivity.
  - intros k. apply call_again_idempotent.
    exact (sortino_ratio_idempotent self l r Hn Hr).
  - intros k. apply call_again_idempotent.
    exact (portfolio_beta_idempotent bench self v0 vs d Hv Hd).
  - rewrite (portfolio_beta_run bench self v0 vs d Hv Hd).
    rewrite (sortino_ratio_run self l r Hn Hr).
    destruct (_bench_return bench); cbv zeta; cbn [snd].
    + rewrite (sortino_ratio_run (set_portf_beta _ self) l r)
        by (destruct self; assumption).
      destruct self; reflexivity.
    + rewrite (sortino_ratio_run self l r Hn Hr). reflexivity.
  - rewrite (sortino_ratio_run self l r Hn Hr). cbn [snd].
    rewrite (portfolio_beta_run bench (set_dwn_dev _ self) v0 vs d)
      by (destruct self; assumption).
    rewrite (portfolio_beta_run bench self v0 vs d Hv Hd).
    destruct (_bench_return bench); destruct self; reflexivity.
Qed.

Lemma metric_calls_frame_and_repeat_witness :
  call_again sortino_ratio 2 portfolio_A = sortino_ratio portfolio_A.
Proof.
  apply (metric_calls_frame_and_repeat portfolio_A [100; 120] 100
           [110; 90; 120]
           [[100; 110; 90; 120]; [100; 110; 90; 120]]
           [pow2 ((100 / 105 - 1) * 100); pow2 ((90 / 105 - 1) * 100)]
           ((120 / 100 - 1) * 100)).
  - reflexivity.
  - reflexivity.
  - reflexivity.
  - reflexivity.
Defined.

(** * Reordering the asset list *)

Lemma download_body_step (days : string -> list Z)
    (history : string -> Series) (i : string)
    (self : Portfolio) (v : pyvalue) (d : list Series) :
  portf_value self = Some v ->
  portf_data self = Some d ->
  download_body_on days history i self
  = (Ok tt,
     set_portf_data (d ++ [history i])
       (set_portf_value (value_step days history (asset_list self) v i)
                        self)).
Proof.
  intros Hv Hd. unfold download_body_on, bind, getattr, getfield, setattr.
  rewrite Hv. cbv beta iota. destruct self; simpl in *. rewrite Hd.
  reflexivity.
Qed.

Lemma download_loop (days : string -> list Z) (history : string -> Series)
    (assets : list string) :
  forall (self : Portfolio) (v : pyvalue) (d : list Series),
    portf_value self = Some v ->
    portf_data self = Some d ->
    for_each assets (download_body_on days history) self
    = (Ok tt,
       let acc := download_acc days history (asset_list self) assets v d in
       set_portf_data (snd acc) (set_portf_value (fst acc) self)).
Proof.
  induction assets as [|i assets IH]; intros self v d Hv Hd.
  - destruct self; simpl in *; subst; reflexivity.
  - cbn [for_each download_acc]. unfold bind.
    rewrite (download_body_step days history i self v d Hv Hd).
    rewrite (IH _ (value_step days history (asset_list self) v i)
                (d ++ [history i]))
      by (destruct self; reflexivity).
    destruct self; reflexivity.
Qed.

Lemma new_Portfolio_on_run (days : string -> list Z)
    (history : string -> Series) (assets : list string) (rfr : float) :
  new_Portfolio_on days history assets rfr
  = (_portfolio_return ;; _negative_excess_returns)
      (let acc := download_acc days history assets assets (PyInt 0) [] in
       mkPortfolio assets rfr (Some (fst acc)) (Some (snd acc))
                   None None None None).
Proof.
  unfold new_Portfolio_on, bind at 1.
  unfold _download_data_on, bind at 1, setattr, bind at 1, bind at 1,
    getfield.
  rewrite (download_loop days history _ _ (PyInt 0) []) by reflexivity.
  reflexivity.
Qed.

(** On one calendar the constructor is the dated one. *)
Lemma new_Portfolio_calendar (history : string -> Series)
    (assets : list string) (rfr : float) :
  new_Portfolio history assets rfr
  = new_Portfolio_on (calendar history) history assets rfr.
Proof. reflexivity. Qed.

Lemma new_Portfolio_run (history : string -> Series) (assets : list string)
    (rfr : float) :
  new_Portfolio history assets rfr
  = (_portfolio_return ;; _negative_excess_returns)
      (let acc := download_acc (calendar history) history assets assets
                               (PyInt 0) [] in
       mkPortfolio assets rfr (Some (fst acc)) (Some (snd acc))
                   None None None None).
Proof.
  rewrite new_Portfolio_calendar. apply new_Portfolio_on_run.
Qed.

Lemma download_acc_split (days : string -> list Z)
    (history : string -> Series) (al assets : list string) :
  forall (v : pyvalue) (d : list Series),
    download_acc days history al assets v d
    = (fold_left (value_step days history al) assets v,
       d ++ map history assets).
Proof.
  induction assets as [|i assets IH]; intros v d.
  - simpl. rewrite app_nil_r. reflexivity.
  - cbn [download_acc fold_left map]. rewrite IH, <- app_assoc. reflexivity.
Qed.

Lemma fold_pyvalue_add_series (days : string -> list Z)
    (history : string -> Series) (al assets : list string) :
  forall s : Series,
    exists s' : Series,
      fold_left (value_step days history al) assets (PySeries s)
      = PySeries s'.
Proof.
  induction assets as [|i assets IH]; intros s.
  - exists s. reflexivity.
  - cbn [fold_left]. unfold value_step at 2. cbn [pyvalue_add]. apply IH.
Qed.








Lemma construct_run (s0 : Portfolio) (vs : Series) :
  portf_value s0 = Some (PySeries vs) ->
  (_portfolio_return ;; _negative_excess_returns) s0
  = match vs with
    | [] => (Raise IndexError, s0)
    | v0 :: _ =>
        (Ok tt,
         set_ner (NegativeExcessReturnSet_spec vs (risk_free_rate s0))
                 (set_portf_return ((last vs 0 / v0 - 1) * 100) s0))
    end.
Proof.
  intros Hv. unfold bind. destruct vs as [|v0 vs].
  - rewrite (portfolio_return_empty s0 Hv). reflexivity.
  - rewrite (portfolio_return_nonempty s0 v0 vs Hv).
    rewrite (negative_excess_returns_run _ (v0 :: vs))
      by (destruct s0; exact Hv).
    destruct s0; reflexivity.
Qed.






(** * More facts of binary64 arithmetic: signs *)

Lemma ltb_zero_SF (x : float) : (x <? 0) = negb (SFnot_neg (Prim2SF x)).
Proof.
  rewrite ltb_spec. change (Prim2SF 0) with (S754_zero false).
  unfold SFltb. destruct (Prim2SF x) as [s| s| |s m e];
    try (destruct s; reflexivity); reflexivity.
Qed.

(** Rounding keeps the sign it is given. *)
Lemma binary_round_aux_not_neg (m e : Z) (l : location) :
  SFnot_neg (binary_round_aux prec emax false m e l) = true.
Proof.
  unfold binary_round_aux.
  destruct (shr_fexp prec emax m e l) as [mrs e'].
  destruct (shr_fexp prec emax _ e' loc_Exact) as [mrs' e''].
  destruct (shr_m mrs'); try reflexivity.
  destruct (e'' <=? emax - prec)%Z; reflexivity.
Qed.

(** A square is never below zero. *)
Lemma pow2_not_neg (x : float) : (pow2 x <? 0) = false.
Proof.
  rewrite ltb_zero_SF. unfold pow2. rewrite mul_spec. unfold SF64mul.
  destruct (Prim2SF x) as [s| s| |s m e]; try (destruct s; reflexivity);
    try reflexivity.
  unfold SFmul. rewrite xorb_nilpotent, binary_round_aux_not_neg.
  reflexivity.
Qed.

(** A square root is never below zero. *)
Lemma sqrt_not_neg (x : float) : (np_sqrt x <? 0) = false.
Proof.
  rewrite ltb_zero_SF. unfold np_sqrt. rewrite sqrt_spec. unfold SF64sqrt.
  destruct (Prim2SF x) as [s| s| |s m e]; try (destruct s; reflexivity);
    try reflexivity.
  destruct s; [reflexivity|]. unfold SFsqrt.
  destruct (SFsqrt_core_binary prec emax (Z.pos m) e) as [[mz ez] lz].
  rewrite binary_round_aux_not_neg. reflexivity.
Qed.

Lemma sub_not_finite_l (x y : float) :
  is_finite x = false -> is_finite (x - y) = false.
Proof.
  rewrite !FloatFacts.is_finite_SF, sub_spec. unfold SF64sub.
  destruct (Prim2SF x) as [s| s| |s m e]; try discriminate; intros _;
    destruct (Prim2SF y) as [s'| s'| |s' m' e'];
    try reflexivity; destruct s, s'; reflexivity.
Qed.

(** Nothing compares below NaN. *)
Lemma ltb_nan_r (x : float) : (x <? nan) = false.
Proof.
  rewrite ltb_spec. change (Prim2SF nan) with S754_nan. unfold SFltb.
  destruct (Prim2SF x) as [s| s| |s m e]; reflexivity.
Qed.

(** * Construction *)

(** The value that the loop of [_download_data] accumulates. *)
Lemma new_Portfolio_fold (history : string -> Series) (assets : list string)
    (rfr : float) :
  new_Portfolio history assets rfr
  = (_portfolio_return ;; _negative_excess_returns)
      (mkPortfolio assets rfr
         (Some (fold_left (value_step (calendar history) history assets)
                          assets (PyInt 0)))
         (Some (map history assets)) None None None None).
Proof.
  rewrite new_Portfolio_run, download_acc_split. reflexivity.
Qed.

Lemma fold_pyvalue_add_nonempty (days : string -> list Z)
    (history : string -> Series) (al : list string)
    (a : string) (rest : list string) :
  exists s : Series,
    fold_left (value_step days history al) (a :: rest) (PyInt 0)
    = PySeries s.
Proof.
  cbn [fold_left]. unfold value_step at 2. cbn [pyvalue_add].
  apply fold_pyvalue_add_series.
Qed.

(** X1: [_download_data] never raises and forgets what the two attributes
    held before: it leaves in [portf_data] the series of every asset of
    [asset_list], one per asset and in list order, and in [portf_value] the
    [int] 0 when the list is empty and a series otherwise. *)
Theorem download_data_retains_every_series (history : string -> Series)
    (self : Portfolio) :
  exists v : pyvalue,
    _download_data history self
    = (Ok tt,
       set_portf_data (map history (asset_list self))
                      (set_portf_value v self))
    /\ (asset_list self = [] -> v = PyInt 0)
    /\ (asset_list self <> [] -> exists s : Series, v = PySeries s).
Proof.
  exists (fold_left
            (value_step (calendar history) history (asset_list self))
            (asset_list self) (PyInt 0)).
  split; [|split].
  - unfold _download_data, _download_data_on, bind at 1, setattr,
      bind at 1, bind at 1, getfield.
    rewrite (download_loop (calendar history) history _ _ (PyInt 0) [])
      by reflexivity.
    cbv zeta. rewrite download_acc_split. destruct self; reflexivity.
  - intros ->. reflexivity.
  - intros Hne. destruct (asset_list self) as [|a rest]; [congruence|].
    apply fold_pyvalue_add_nonempty.
Qed.

(** X2: a portfolio cannot be built from an empty asset list: the value
    attribute is still the [int] 0 when [_portfolio_return] subscripts it,
    and the constructor raises [TypeError] whatever the provider and the
    rate are. *)
Theorem empty_asset_list_raises_TypeError (history : string -> Series)
    (rfr : float) :
  new_Portfolio history [] rfr
  = (Raise TypeError,
     mkPortfolio [] rfr (Some (PyInt 0)) (Some []) None None None None).
Proof. reflexivity. Qed.

(** The object that a successful construction returns. *)
Lemma new_Portfolio_ok (history : string -> Series) (assets : list string)
    (rfr : float) (self : Portfolio) :
  new_Portfolio history assets rfr = (Ok tt, self) ->
  assets <> []
  /\ exists (v0 : float) (vs : Series),
       self = mkPortfolio assets rfr (Some (PySeries (v0 :: vs)))
                (Some (map history assets))
                (Some ((last (v0 :: vs) 0 / v0 - 1) * 100))
                (Some (NegativeExcessReturnSet_spec (v0 :: vs) rfr))
                None None.
Proof.
  rewrite new_Portfolio_fold. intros H.
  destruct assets as [|a rest]; [discriminate H|].
  destruct (fold_pyvalue_add_nonempty (calendar history) history
              (a :: rest) a rest) as [s Hs].
  rewrite Hs in H. rewrite (construct_run _ s) in H by reflexivity.
  destruct s as [|v0 vs]; [discriminate H|].
  injection H as <-.
  split; [discriminate|].
  exists v0, vs. reflexivity.
Qed.

(** X3: what a successful construction establishes.  The asset list is not
    empty, the value series is not empty, [portf_data] holds the series of
    the assets in list order, [portf_return] and [ner] hold the return and
    the negative excess returns of the value series, and [portf_beta] and
    [dwn_dev] do not exist yet. *)
Theorem constructed_portfolio_attributes (history : string -> Series)
    (assets : list string) (rfr : float) (self : Portfolio) :
  new_Portfolio history assets rfr = (Ok tt, self) ->
  assets <> []
  /\ asset_list self = assets
  /\ risk_free_rate self = rfr
  /\ portf_data self = Some (map history assets)
  /\ portf_beta self = None
  /\ dwn_dev self = None
  /\ exists (v0 : float) (vs : Series),
       portf_value self = Some (PySeries (v0 :: vs))
       /\ portf_return self = Some ((last (v0 :: vs) 0 / v0 - 1) * 100)
       /\ ner self = Some (NegativeExcessReturnSet_spec (v0 :: vs) rfr).
Proof.
  intros H.
  destruct (new_Portfolio_ok history assets rfr self H)
    as [Hne [v0 [vs ->]]].
  split; [exact Hne|].
  repeat (split; [reflexivity|]).
  exists v0, vs. repeat split; reflexivity.
Qed.

Lemma constructed_portfolio_attributes_witness :
  portf_data portfolio_A
  = Some (map scenario_A ["A"; "B"]).
Proof.
  apply (constructed_portfolio_attributes scenario_A ["A"; "B"] 5
                                          portfolio_A).
  reflexivity.
Defined.

Lemma series_add_length (da : list Z) :
  forall (a : Series) (db : list Z) (b : Series),
    length a = length da -> length (series_add da a db b) = length a.
Proof.
  induction da as [|d da IH]; intros [|x a] db b H; try discriminate H.
  - reflexivity.
  - cbn [series_add length]. rewrite IH; [reflexivity|].
    simpl in H. lia.
Qed.

(** The in-place additions keep the number of days of the value series. *)
Lemma fold_value_step_length (days : string -> list Z)
    (history : string -> Series) (a : string) (al assets : list string) :
  forall s : Series,
    length s = length (days a) ->
    exists s' : Series,
      fold_left (value_step days history (a :: al)) assets (PySeries s)
      = PySeries s'
      /\ length s' = length s.
Proof.
  induction assets as [|i assets IH]; intros s Hs.
  - exists s. split; reflexivity.
  - cbn [fold_left]. unfold value_step at 2. cbn [pyvalue_add hd].
    destruct (IH (series_add (days a) s (days i)
                    (series_div (history i)
                                (float_of_nat (length (a :: al))))))
      as [s' [Hs' Hlen]].
    + rewrite series_add_length; assumption.
    + exists s'. split; [exact Hs'|].
      rewrite Hlen. apply series_add_length. exact Hs.
Qed.

Lemma calendar_length (history : string -> Series) (i : string) :
  length (calendar history i) = length (history i).
Proof. unfold calendar. rewrite length_map, length_seq. reflexivity. Qed.

(** On one calendar the value series has as many values as the first
    asset has prices. *)
Lemma value_series_length (history : string -> Series)
    (a : string) (rest : list string) :
  exists s : Series,
    fold_left (value_step (calendar history) history (a :: rest))
              (a :: rest) (PyInt 0)
    = PySeries s
    /\ length s = length (history a).
Proof.
  cbn [fold_left]. unfold value_step at 2. cbn [pyvalue_add].
  destruct (fold_value_step_length (calendar history) history a rest rest
              (map (fun x => float_of_Z 0 + x)
                   (series_div (history a)
                               (float_of_nat (length (a :: rest))))))
    as [s [Hs Hlen]].
  - unfold series_div. rewrite !length_map, calendar_length. reflexivity.
  - exists s. split; [exact Hs|].
    rewrite Hlen. unfold series_div. rewrite !length_map. reflexivity.
Qed.

(** X4: when the provider has no price for any asset of a non-empty list,
    the constructor raises [IndexError]: the value series is empty and
    [_portfolio_return] subscripts it. *)
Theorem no_data_raises_IndexError (history : string -> Series)
    (assets : list string) (rfr : float) :
  assets <> [] ->
  (forall a : string, In a assets -> history a = []) ->
  fst (new_Portfolio history assets rfr) = Raise IndexError.
Proof.
  intros Hne Hall. rewrite new_Portfolio_fold.
  destruct assets as [|a rest]; [congruence|].
  destruct (value_series_length history a rest) as [s [Hs Hlen]].
  rewrite (Hall a (or_introl eq_refl)) in Hlen.
  rewrite Hs. rewrite (construct_run _ s) by reflexivity.
  destruct s; [reflexivity | discriminate Hlen].
Qed.

Lemma no_data_raises_IndexError_witness :
  fst (new_Portfolio (fun _ => []) ["A"; "B"] 5) = Raise IndexError.
Proof.
  apply (no_data_raises_IndexError (fun _ => []) ["A"; "B"] 5).
  - discriminate.
  - reflexivity.
Defined.

(** X5: when every asset of a non-empty list has the same number [k >= 1]
    of prices, the constructor raises nothing and the value series has [k]
    values, one per day. *)
Theorem equal_length_data_constructs (history : string -> Series)
    (assets : list string) (rfr : float) (k : nat) :
  assets <> [] ->
  (1 <= k)%nat ->
  (forall a : string, In a assets -> length (history a) = k) ->
  exists (self : Portfolio) (s : Series),
    new_Portfolio history assets rfr = (Ok tt, self)
    /\ portf_value self = Some (PySeries s)
    /\ length s = k.
Proof.
  intros Hne Hk Hall. rewrite new_Portfolio_fold.
  destruct assets as [|a rest]; [congruence|].
  destruct (value_series_length history a rest) as [s [Hs Hlen]].
  rewrite (Hall a (or_introl eq_refl)) in Hlen.
  rewrite Hs. rewrite (construct_run _ s) by reflexivity.
  destruct s as [|v0 vs]; [simpl in Hlen; lia|].
  eexists. exists (v0 :: vs). split; [reflexivity|].
  split; [reflexivity | exact Hlen].
Qed.

Lemma equal_length_data_constructs_witness :
  exists (self : Portfolio) (s : Series),
    new_Portfolio scenario_A ["A"; "B"] 5 = (Ok tt, self)
    /\ portf_value self = Some (PySeries s)
    /\ length s = 4%nat.
Proof.
  apply (equal_length_data_constructs scenario_A ["A"; "B"] 5 4).
  - discriminate.
  - lia.
  - reflexivity.
Defined.

(** * The derived set and the downside deviation *)

Lemma filter_nil_iff {A : Type} (g : A -> bool) (l : list A) :
  filter g l = [] <-> Forall (fun x => g x = false) l.
Proof.
  induction l as [|x l IH]; cbn [filter].
  - split; [constructor | reflexivity].
  - destruct (g x) eqn:Hg.
    + split; [discriminate|]. intros H. inversion H; congruence.
    + rewrite IH. split.
      * intros H. constructor; assumption.
      * intros H. inversion H; assumption.
Qed.

(** X6: every entry that [_negative_excess_returns] leaves in [ner] is a
    square and so never below zero, and there are at most as many entries
    as values in the series. *)
Theorem ner_entries_not_negative (self : Portfolio) (vs : Series)
    (l : list float) :
  portf_value self = Some (PySeries vs) ->
  ner (snd (_negative_excess_returns self)) = Some l ->
  Forall (fun e => (e <? 0) = false) l /\ (length l <= length vs)%nat.
Proof.
  intros Hv. rewrite (negative_excess_returns_run self vs Hv).
  destruct self; cbn [snd ner set_ner]. intros H. injection H as <-.
  split.
  - apply Forall_forall. intros e He. apply in_map_iff in He.
    destruct He as [v [<- _]]. apply pow2_not_neg.
  - rewrite length_map. apply filter_length_le.
Qed.

Lemma ner_entries_not_negative_witness :
  Forall (fun e => (e <? 0) = false)
         [pow2 ((100 / (100 + 5) - 1) * 100);
          pow2 ((90 / (100 + 5) - 1) * 100)]
  /\ (2 <= 4)%nat.
Proof.
  apply (ner_entries_not_negative (with_value 5 [100; 110; 90; 120])
                                  [100; 110; 90; 120]).
  - reflexivity.
  - reflexivity.
Defined.

(** X7: [_negative_excess_returns] leaves [ner] empty exactly when no value
    of the series compares below [value[first] + risk_free_rate]. *)
Theorem ner_empty_iff_no_value_below (self : Portfolio) (vs : Series) :
  portf_value self = Some (PySeries vs) ->
  ner (snd (_negative_excess_returns self)) = Some []
  <-> Forall (fun v => (v <? hd 0 vs + risk_free_rate self) = false) vs.
Proof.
  intros Hv. rewrite (negative_excess_returns_run self vs Hv).
  rewrite <- filter_nil_iff.
  destruct self; cbn [snd ner set_ner risk_free_rate]. split.
  - intros H.
    destruct (filter _ vs); [reflexivity | discriminate H].
  - intros ->. reflexivity.
Qed.

Lemma ner_empty_iff_no_value_below_witness :
  ner (snd (_negative_excess_returns (with_value 0 [100; 110; 120])))
  = Some []
  <-> Forall (fun v => (v <? 100 + 0) = false) [100; 110; 120].
Proof.
  apply (ner_empty_iff_no_value_below (with_value 0 [100; 110; 120])
                                      [100; 110; 120]).
  reflexivity.
Defined.

(** X8: on an object that holds [ner] and [portf_return], [sortino_ratio]
    raises nothing, and the downside deviation it stores is a square root
    and so never below zero. *)
Theorem downside_deviation_not_negative (self : Portfolio)
    (l : list float) (r : float) :
  ner self = Some l ->
  portf_return self = Some r ->
  exists x d : float,
    sortino_ratio self = (Ok x, set_dwn_dev d self)
    /\ x = (r - risk_free_rate self) / d
    /\ (d <? 0) = false.
Proof.
  intros Hn Hr. rewrite (sortino_ratio_run self l r Hn Hr).
  do 2 eexists. split; [reflexivity|]. split; [reflexivity|].
  apply sqrt_not_neg.
Qed.

Lemma downside_deviation_not_negative_witness :
  exists x d : float,
    sortino_ratio portfolio_A = (Ok x, set_dwn_dev d portfolio_A)
    /\ x = ((120 / 100 - 1) * 100 - 5) / d
    /\ (d <? 0) = false.
Proof.
  apply (downside_deviation_not_negative portfolio_A
           [pow2 ((100 / 105 - 1) * 100); pow2 ((90 / 105 - 1) * 100)]
           ((120 / 100 - 1) * 100)).
  - reflexivity.
  - reflexivity.
Defined.

(** X9: a first value of zero is not guarded: [_portfolio_return] raises
    nothing and stores an infinity or NaN. *)
Theorem zero_first_value_return_not_finite (self : Portfolio) (v0 : float)
    (vs : Series) :
  portf_value self = Some (PySeries (v0 :: vs)) ->
  (v0 =? 0) = true ->
  exists r : float,
    _portfolio_return self = (Ok tt, set_portf_return r self)
    /\ is_finite r = false.
Proof.
  intros Hv Hz. rewrite (portfolio_return_nonempty self v0 vs Hv).
  eexists. split; [reflexivity|].
  apply FloatFacts.mul_not_finite_l, sub_not_finite_l.
  now apply FloatFacts.div_zero_not_finite.
Qed.

Lemma zero_first_value_return_not_finite_witness :
  exists r : float,
    _portfolio_return (with_value 5 [0; 110])
    = (Ok tt, set_portf_return r (with_value 5 [0; 110]))
    /\ is_finite r = false.
Proof.
  apply (zero_first_value_return_not_finite (with_value 5 [0; 110])
                                            0 [110]).
  - reflexivity.
  - reflexivity.
Defined.

(** * When the beta computation raises *)

Lemma beta_term_nil (br rf v0 : float) (n : nat) :
  beta_term br rf v0 n [] = Raise IndexError.
Proof. reflexivity. Qed.

Lemma beta_term_cons (br rf v0 : float) (n : nat) (x : float) (l : Series) :
  exists t : float, beta_term br rf v0 n (x :: l) = Ok t.
Proof.
  unfold beta_term. rewrite asset_return_nonempty, py_index_first.
  cbn [res_bind]. eexists. reflexivity.
Qed.

Lemma beta_acc_outcome (br rf v0 : float) (n : nat) (data : list Series) :
  forall b : float,
    (Forall (fun i : Series => i <> []) data
     /\ exists b' : float, beta_acc br rf v0 n data b = (Ok tt, b'))
    \/ (~ Forall (fun i : Series => i <> []) data
        /\ exists b' : float,
             beta_acc br rf v0 n data b = (Raise IndexError, b')).
Proof.
  induction data as [|i data IH]; intros b.
  - left. split; [constructor | exists b; reflexivity].
  - cbn [beta_acc]. destruct i as [|x l].
    + right. rewrite beta_term_nil. split.
      * intros H. inversion H; congruence.
      * exists b. reflexivity.
    + destruct (beta_term_cons br rf v0 n x l) as [t ->].
      destruct (IH (b + t)) as [[Hall Hok]|[Hnot Herr]].
      * left. split; [|exact Hok]. constructor; [discriminate | exact Hall].
      * right. split; [|exact Herr].
        intros H. apply Hnot. inversion H; assumption.
Qed.

Lemma bench_return_cons (x : float) (l : Series) :
  _bench_return (x :: l) = Ok ((x / last (x :: l) 0 - 1) * 100).
Proof. exact (asset_return_nonempty x l). Qed.

(** X10: on an object with a non-empty value series, [portfolio_beta]
    returns a number exactly when the benchmark series and every retained
    asset series are non-empty; otherwise it raises [IndexError], and when
    it is the benchmark that is empty the object is left untouched. *)
Theorem portfolio_beta_raises_iff_empty_series (self : Portfolio)
    (bench : Series) (v0 : float) (vs : Series) (d : list Series) :
  portf_value self = Some (PySeries (v0 :: vs)) ->
  portf_data self = Some d ->
  (bench <> [] /\ Forall (fun i : Series => i <> []) d ->
   exists b : float, fst (portfolio_beta bench self) = Ok b)
  /\ (~ (bench <> [] /\ Forall (fun i : Series => i <> []) d) ->
      fst (portfolio_beta bench self) = Raise IndexError)
  /\ (bench = [] -> portfolio_beta bench self = (Raise IndexError, self)).
Proof.
  intros Hv Hd. rewrite (portfolio_beta_run bench self v0 vs d Hv Hd).
  destruct bench as [|x l].
  - split; [|split].
    + intros [H _]. congruence.
    + intros _. reflexivity.
    + intros _. reflexivity.
  - rewrite bench_return_cons. cbv zeta.
    destruct (beta_acc_outcome
                ((x / last (x :: l) 0 - 1) * 100) (risk_free_rate self) v0
                (length d) d 0) as [[Hall [b' Hok]]|[Hnot [b' Herr]]].
    + rewrite Hok. split; [|split].
      * intros _. exists b'. reflexivity.
      * intros H. exfalso. apply H. split; [discriminate | exact Hall].
      * discriminate.
    + rewrite Herr. split; [|split].
      * intros [_ H]. contradiction.
      * intros _. reflexivity.
      * discriminate.
Qed.

Lemma portfolio_beta_raises_iff_empty_series_witness :
  portfolio_beta [] portfolio_A = (Raise IndexError, portfolio_A).
Proof.
  apply (portfolio_beta_raises_iff_empty_series portfolio_A [] 100
           [110; 90; 120] [[100; 110; 90; 120]; [100; 110; 90; 120]]).
  - reflexivity.
  - reflexivity.
  - reflexivity.
Defined.

(** * Running the derivation again *)

(** X11: [_negative_excess_returns] starts from an empty list each time, so
    running it again gives the same outcome and the same object as running
    it once; entries are never appended twice. *)
Theorem negative_excess_returns_idempotent (self : Portfolio) :
  _negative_excess_returns (snd (_negative_excess_returns self))
  = _negative_excess_returns self.
Proof.
  destruct (portf_value self) as [[z|vs]|] eqn:Hv.
  - destruct self; simpl in Hv; subst; reflexivity.
  - rewrite (negative_excess_returns_run self vs Hv). cbn [snd].
    rewrite (negative_excess_returns_run _ vs)
      by (destruct self; exact Hv).
    destruct self; reflexivity.
  - destruct self; simpl in Hv; subst; reflexivity.
Qed.

(** * Missing prices: NaN in the value series *)

Lemma is_nan_eq (x : float) : is_nan x = true -> x = nan.
Proof.
  rewrite FloatFacts.is_nan_SF. intros H. apply Prim2SF_inj.
  change (Prim2SF nan) with S754_nan.
  destruct (Prim2SF x); try discriminate H. reflexivity.
Qed.

Lemma div_nan_l (y : float) : nan / y = nan.
Proof. apply Prim2SF_inj. rewrite div_spec. reflexivity. Qed.

Lemma div_nan_r (x : float) : x / nan = nan.
Proof.
  apply Prim2SF_inj. rewrite div_spec.
  change (Prim2SF nan) with S754_nan. unfold SF64div.
  destruct (Prim2SF x); reflexivity.
Qed.

Lemma sub_nan_l (y : float) : nan - y = nan.
Proof. apply Prim2SF_inj. rewrite sub_spec. reflexivity. Qed.

Lemma mul_nan_l (y : float) : nan * y = nan.
Proof. apply Prim2SF_inj. rewrite mul_spec. reflexivity. Qed.

(** X12: when the first value of the series or the risk-free rate is NaN,
    the threshold is NaN, no value compares below it, and
    [_negative_excess_returns] leaves [ner] empty. *)
Theorem nan_threshold_leaves_ner_empty (self : Portfolio) (v0 : float)
    (vs : Series) :
  portf_value self = Some (PySeries (v0 :: vs)) ->
  is_nan v0 = true \/ is_nan (risk_free_rate self) = true ->
  _negative_excess_returns self = (Ok tt, set_ner [] self).
Proof.
  intros Hv Hnan. rewrite (negative_excess_returns_run self (v0 :: vs) Hv).
  assert (Ht : hd 0 (v0 :: vs) + risk_free_rate self = nan).
  { cbn [hd]. destruct Hnan as [H|H]; apply is_nan_eq in H; rewrite H.
    - apply FloatFacts.add_nan_l.
    - apply FloatFacts.add_nan_r. }
  rewrite Ht.
  replace (filter (fun v => v <? nan) (v0 :: vs)) with (@nil float);
    [reflexivity|].
  symmetry. apply filter_nil_iff, Forall_forall.
  intros x _. apply ltb_nan_r.
Qed.

Lemma nan_threshold_leaves_ner_empty_witness :
  _negative_excess_returns (with_value 5 [nan; 90; 80])
  = (Ok tt, set_ner [] (with_value 5 [nan; 90; 80])).
Proof.
  apply (nan_threshold_leaves_ner_empty (with_value 5 [nan; 90; 80])
                                        nan [90; 80]).
  - reflexivity.
  - left. reflexivity.
Defined.

(** X13: when the first or the last value of the series is NaN,
    [_portfolio_return] raises nothing and stores NaN. *)
Theorem nan_endpoint_return_is_nan (self : Portfolio) (v0 : float)
    (vs : Series) :
  portf_value self = Some (PySeries (v0 :: vs)) ->
  is_nan v0 = true \/ is_nan (last (v0 :: vs) 0) = true ->
  _portfolio_return self = (Ok tt, set_portf_return nan self).
Proof.
  intros Hv Hnan. rewrite (portfolio_return_nonempty self v0 vs Hv).
  destruct Hnan as [H|H]; apply is_nan_eq in H.
  - rewrite H at 2. rewrite div_nan_r, sub_nan_l, mul_nan_l. reflexivity.
  - rewrite H. rewrite div_nan_l, sub_nan_l, mul_nan_l. reflexivity.
Qed.

Lemma nan_endpoint_return_is_nan_witness :
  _portfolio_return (with_value 5 [100; 110; nan])
  = (Ok tt, set_portf_return nan (with_value 5 [100; 110; nan])).
Proof.
  apply (nan_endpoint_return_is_nan (with_value 5 [100; 110; nan])
                                    100 [110; nan]).
  - reflexivity.
  - right. reflexivity.
Defined.

(** * The metrics of a constructed portfolio *)

(** X14: on every portfolio that the constructor returns, [sortino_ratio]
    raises nothing, and [portfolio_beta] raises nothing either as soon as
    the benchmark series is not empty and the provider has at least one
    price for every asset. *)
Theorem constructed_portfolio_metrics_defined (history : string -> Series)
    (assets : list string) (rfr : float) (self : Portfolio) :
  new_Portfolio history assets rfr = (Ok tt, self) ->
  (exists x : float, fst (sortino_ratio self) = Ok x)
  /\ forall bench : Series,
       bench <> [] ->
       (forall a : string, In a assets -> history a <> []) ->
       exists b : float, fst (portfolio_beta bench self) = Ok b.
Proof.
  intros H.
  destruct (new_Portfolio_ok history assets rfr self H)
    as [_ [v0 [vs ->]]].
  split.
  - erewrite sortino_ratio_run by reflexivity.
    eexists. reflexivity.
  - intros bench Hb Hall.
    rewrite (portfolio_beta_run bench _ v0 vs (map history assets))
      by reflexivity.
    destruct bench as [|x l]; [congruence|].
    rewrite bench_return_cons. cbv zeta.
    destruct (beta_acc_outcome
                ((x / last (x :: l) 0 - 1) * 100) rfr v0
                (length (map history assets)) (map history assets) 0)
      as [[_ [b' Hok]]|[Hnot _]].
    + cbn [risk_free_rate]. rewrite Hok. exists b'. reflexivity.
    + exfalso. apply Hnot. apply Forall_forall.
      intros i Hi. apply in_map_iff in Hi. destruct Hi as [a [<- Ha]].
      exact (Hall a Ha).
Qed.

Lemma constructed_portfolio_metrics_defined_witness :
  exists x : float, fst (sortino_ratio portfolio_A) = Ok x.
Proof.
  apply (constructed_portfolio_metrics_defined scenario_A ["A"; "B"] 5
                                               portfolio_A).
  reflexivity.
Defined.
